(** * szurubooru: the search executor

    A shallow embedding of [server/szurubooru/search/executor.py]: the
    sort-direction resolution [_get_direction], the key listing
    [_format_dict_keys], the token validation and application loop
    [Executor._prepare_db_query], and the memoised entry point
    [Executor.execute].

    Python values are dynamically typed; the embedding fixes the types the
    executor relies on.  Exceptions are an explicit outcome, the process-wide
    result cache and the calls made to collaborators (parser, backing
    queries, cache writes) are threaded through an explicit world. *)

From stdpp Require Import gmap strings list fin_maps sorting.
From Stdlib Require Import ZArith Lia.

Local Open Scope Z_scope.

(** ** Token model ([szurubooru.search.tokens])

    The executor reads [token.criterion], [token.negated], [token.name],
    [token.value] and [token.direction], and the four [SortToken.SORT_*]
    constants. *)

Module SortToken.
(** The four constants [SORT_DEFAULT], [SORT_NEGATED_DEFAULT], [SORT_ASC]
    and [SORT_DESC]. *)
Inductive direction_t : Set :=
| SORT_DEFAULT
| SORT_NEGATED_DEFAULT
| SORT_ASC
| SORT_DESC.

Record t : Set := Build { name : string; direction : direction_t }.
End SortToken.

#[global] Instance direction_eq_dec : EqDecision SortToken.direction_t.
Proof. solve_decision. Defined.

Module AnonymousToken.
Record t : Set := Build { criterion : string; negated : bool }.
End AnonymousToken.

Module NamedToken.
Record t : Set := Build { name : string; criterion : string; negated : bool }.
End NamedToken.

Module SpecialToken.
Record t : Set := Build { value : string; negated : bool }.
End SpecialToken.

(** The object returned by [parser.parse]: four ordered token sequences. *)
Record SearchQuery : Set := {
  anonymous_tokens : list AnonymousToken.t;
  named_tokens : list NamedToken.t;
  special_tokens : list SpecialToken.t;
  sort_tokens : list SortToken.t
}.

(** ** Exceptions and outcomes *)

(** [errors.SearchError(template % (name, keys))]: the message is kept as
    the template together with the two values formatted into it by [%r],
    so that the listed names stay observable. *)
Inductive Message : Set :=
| Plain (text : string)
| Format (template : string) (name : string) (available : list string).

Inductive Exn : Set :=
| SearchError (msg : Message)
| AssertionError
| KeyError.

Inductive Outcome (A : Type) : Type :=
| Return (a : A)
| Raise (e : Exn).
Arguments Return {A} a.
Arguments Raise {A} e.

Definition bindO {A B} (m : Outcome A) (k : A -> Outcome B) : Outcome B :=
  match m with
  | Return a => k a
  | Raise e => Raise e
  end.

(** A [for] loop whose body may raise: the accumulator is threaded through
    the items in order and the first exception leaves the loop. *)
Fixpoint for_each {A T} (body : A -> T -> Outcome A) (items : list T) (acc : A)
  : Outcome A :=
  match items with
  | [] => Return acc
  | x :: rest => bindO (body acc x) (for_each body rest)
  end.

(** ** [_get_direction] *)

Import SortToken.

Definition _get_direction (direction default_direction : direction_t)
  : Outcome direction_t :=
  if decide (direction = SORT_DEFAULT) then Return default_direction
  else if decide (direction = SORT_NEGATED_DEFAULT) then
    if decide (default_direction = SORT_ASC) then Return SORT_DESC
    else if decide (default_direction = SORT_DESC) then Return SORT_ASC
    else Raise AssertionError
  else Return direction.

(** The precondition on a configured default direction. *)
Definition is_column_direction (d : direction_t) : Prop :=
  d = SORT_ASC \/ d = SORT_DESC.

(** ** The backing query source (SQLAlchemy [Query] and [Select])

    SQLAlchemy is an external collaborator.  Its query objects are modelled
    by what the executor builds into them: a row source, the accumulated
    predicates, the order-by clauses in the order they were added, an
    offset, a limit and the loader options.  A sort column is modelled by
    the integer key it orders rows by.  Executing a query is total here:
    failures of the backing store are outside the executor. *)

Section Model.
Context {Entity : Type}.

Record Column : Type := { col_key : Entity -> Z }.

(** [column.asc()] and [column.desc()]. *)
Inductive OrderClause : Type :=
| asc (column : Column)
| desc (column : Column).

(** [sqlalchemy.orm.lazyload(spec)]. *)
Inductive LoaderOption : Set :=
| lazyload (spec : string).

Record Query : Type := {
  q_from : list Entity;
  q_where : list (Entity -> bool);
  q_order_by : list OrderClause;
  q_offset : option Z;
  q_limit : option Z;
  q_options : list LoaderOption
}.

(** [db.session.query(Model)]: every row, nothing else set. *)
Definition session_query (rows : list Entity) : Query :=
  {| q_from := rows; q_where := []; q_order_by := []; q_offset := None;
     q_limit := None; q_options := [] |}.

Definition Query_filter (p : Entity -> bool) (q : Query) : Query :=
  {| q_from := q_from q; q_where := q_where q ++ [p];
     q_order_by := q_order_by q; q_offset := q_offset q;
     q_limit := q_limit q; q_options := q_options q |}.

(** Successive [order_by] calls add to the existing criteria. *)
Definition Query_order_by (c : OrderClause) (q : Query) : Query :=
  {| q_from := q_from q; q_where := q_where q;
     q_order_by := q_order_by q ++ [c]; q_offset := q_offset q;
     q_limit := q_limit q; q_options := q_options q |}.

Definition Query_offset (n : Z) (q : Query) : Query :=
  {| q_from := q_from q; q_where := q_where q;
     q_order_by := q_order_by q; q_offset := Some n;
     q_limit := q_limit q; q_options := q_options q |}.

Definition Query_limit (n : Z) (q : Query) : Query :=
  {| q_from := q_from q; q_where := q_where q;
     q_order_by := q_order_by q; q_offset := q_offset q;
     q_limit := Some n; q_options := q_options q |}.

Definition Query_options (o : LoaderOption) (q : Query) : Query :=
  {| q_from := q_from q; q_where := q_where q;
     q_order_by := q_order_by q; q_offset := q_offset q;
     q_limit := q_limit q; q_options := q_options q ++ [o] |}.

(** *** Evaluation of a query *)

Definition matches (preds : list (Entity -> bool)) (e : Entity) : bool :=
  forallb (fun p => p e) preds.

(** Lexicographic comparison along the order-by clauses: the first clause
    decides unless its keys are equal, then the next one does. *)
Definition clause_keys (c : OrderClause) (a b : Entity) : Z * Z :=
  match c with
  | asc col => (col_key col a, col_key col b)
  | desc col => (col_key col b, col_key col a)
  end.

Fixpoint order_leb (clauses : list OrderClause) (a b : Entity) : bool :=
  match clauses with
  | [] => true
  | c :: rest =>
      let '(ka, kb) := clause_keys c a b in
      if ka <? kb then true
      else if ka =? kb then order_leb rest a b
      else false
  end.

Definition order_le (clauses : list OrderClause) : relation Entity :=
  fun a b => order_leb clauses a b = true.

(** Under one clause: [a] comes strictly before [b], or ties with it. *)
Definition clause_before (c : OrderClause) (a b : Entity) : Prop :=
  (clause_keys c a b).1 < (clause_keys c a b).2.

Definition clause_tie (c : OrderClause) (a b : Entity) : Prop :=
  (clause_keys c a b).1 = (clause_keys c a b).2.

Fixpoint insert_row (clauses : list OrderClause) (x : Entity)
         (rows : list Entity) : list Entity :=
  match rows with
  | [] => [x]
  | y :: rest =>
      if order_leb clauses x y then x :: y :: rest
      else y :: insert_row clauses x rest
  end.

(** A stable sort: rows that compare equal keep their source order. *)
Definition sort_rows (clauses : list OrderClause) (rows : list Entity)
  : list Entity :=
  foldr (insert_row clauses) [] rows.

(** OFFSET then LIMIT.  What a backing store does with a negative OFFSET
    or LIMIT differs from store to store and is not modelled: a negative
    value counts as 0 here, and what is stated of the window is stated
    for [page >= 1] and [page_size >= 0], which the caller validates. *)
Definition window {A} (offset limit : option Z) (rows : list A) : list A :=
  let rows :=
    match offset with Some n => drop (Z.to_nat n) rows | None => rows end in
  match limit with Some n => take (Z.to_nat n) rows | None => rows end.

(** [Query.all()]. *)
Definition Query_all (q : Query) : list Entity :=
  window (q_offset q) (q_limit q)
    (sort_rows (q_order_by q) (List.filter (matches (q_where q)) (q_from q))).

(** What a statement selects: the entity columns, or the single
    aggregate [func.count()]. *)
Inductive Projection : Set :=
| entity_columns
| func_count.

Record Select : Type := {
  s_columns : Projection;
  s_from : list Entity;
  s_where : list (Entity -> bool);
  s_order_by : list OrderClause;
  s_offset : option Z;
  s_limit : option Z
}.

(** [Query.statement]. *)
Definition statement (q : Query) : Select :=
  {| s_columns := entity_columns; s_from := q_from q;
     s_where := q_where q; s_order_by := q_order_by q;
     s_offset := q_offset q; s_limit := q_limit q |}.

Definition with_only_columns (cols : Projection) (s : Select) : Select :=
  {| s_columns := cols; s_from := s_from s; s_where := s_where s;
     s_order_by := s_order_by s; s_offset := s_offset s;
     s_limit := s_limit s |}.

(** [Select.order_by(None)]: any existing ordering is dropped. *)
Definition order_by_None (s : Select) : Select :=
  {| s_columns := s_columns s; s_from := s_from s; s_where := s_where s;
     s_order_by := []; s_offset := s_offset s; s_limit := s_limit s |}.

(** A cell of a result row. *)
Inductive Cell : Type :=
| count_cell (n : Z)
| entity_cell (e : Entity).

(** [db.session.execute(statement)]: the first column of each result row.
    The aggregate yields one row, to which OFFSET and LIMIT then apply. *)
Definition session_execute (s : Select) : list Cell :=
  let rows := List.filter (matches (s_where s)) (s_from s) in
  match s_columns s with
  | func_count =>
      window (s_offset s) (s_limit s)
        [count_cell (Z.of_nat (length rows))]
  | entity_columns =>
      window (s_offset s) (s_limit s)
        (entity_cell <$> sort_rows (s_order_by s) rows)
  end.

(** [ResultProxy.scalar()]: the first cell, or [None]. *)
Definition scalar (cells : list Cell) : option Cell := head cells.

(** ** The search capability ([SearchConfig])

    One object per searchable entity type.  The two factories read the
    current dataset; with a fixed dataset they are the queries below. *)

Record SearchConfig : Type := {
  anonymous_filter : option (Query -> string -> bool -> Query);
  named_filters : gmap string (Query -> string -> bool -> Query);
  special_filters : gmap string (Query -> bool -> Query);
  sort_columns : gmap string (Column * direction_t);
  finalize_query : Query -> Query;
  create_filter_query : Query;
  create_count_query : Query
}.

(** ** [_format_dict_keys] *)

(** Python compares [str] values lexicographically by code point. *)
Definition string_le (a b : string) : Prop := String.leb a b = true.

#[global] Instance string_le_dec a b : Decision (string_le a b).
Proof. unfold string_le. apply _. Defined.

Definition _format_dict_keys {V} (source : gmap string V) : list string :=
  merge_sort string_le (map_to_list source).*1.
End Model.

Arguments Column : clear implicits.
Arguments OrderClause : clear implicits.
Arguments Query : clear implicits.
Arguments Select : clear implicits.
Arguments Cell : clear implicits.
Arguments SearchConfig : clear implicits.

(** The two shapes of filter: [(query, criterion, negated) -> query] and
    [(query, negated) -> query]. *)
Abbreviation CriterionFilter Entity :=
  (Query Entity -> string -> bool -> Query Entity).
Abbreviation FlagFilter Entity := (Query Entity -> bool -> Query Entity).

(** ** The world: objects, result cache, calls made *)

(** A cache key: the tuple [(id(self.config), query_text, page, page_size)].
    Tuples compare component by component; [id] is the integer CPython
    derives from the address of the config object, unique among the
    objects alive at the same time and free to be given again once its
    object is gone. *)
Abbreviation Key := (Z * string * Z * Z)%type.

(** Calls the executor makes, in the order they happen. *)
Inductive Event : Set :=
| call_parse (query_text : string)
| call_prepare_db_query (use_sort : bool)
| call_all
| call_session_execute
| call_cache_put (key : Key).

Definition is_backing_query (ev : Event) : bool :=
  match ev with
  | call_all | call_session_execute => true
  | _ => false
  end.

Definition is_cache_put (ev : Event) : bool :=
  match ev with
  | call_cache_put _ => true
  | _ => false
  end.

Section Executor.
Context {Entity : Type}.

(** [parser.Parser().parse]: the parser module is not part of the
    executor; every executor builds the same stateless parser, taken here
    as a parameter. *)
Variable parse : string -> SearchQuery.

(** The pair [(count, entities)] returned by [execute]. *)
Definition Result : Type := option (Cell Entity) * list Entity.

(** [objects] maps the [id] of a config object to the object that lives
    there now: two distinct ids may hold equal contents, and the object
    at an id is another one once the first was freed and its address
    reused.  [store] is the process-wide cache, [trace] the calls made so
    far, oldest first. *)
Record World : Type := {
  objects : Z -> SearchConfig Entity;
  store : gmap Key Result;
  trace : list Event
}.

Definition M (A : Type) : Type := World -> Outcome A * World.

Definition ret {A} (a : A) : M A := fun w => (Return a, w).

Definition throw {A} (e : Exn) : M A := fun w => (Raise e, w).

Definition bind {A B} (m : M A) (k : A -> M B) : M B :=
  fun w =>
    match m w with
    | (Return a, w') => k a w'
    | (Raise e, w') => (Raise e, w')
    end.

Notation "x <- m ;; k" := (bind m (fun x => k))
  (at level 100, m at next level, right associativity).
Notation "m ;;; k" := (bind m (fun _ => k))
  (at level 100, right associativity).

Definition lift {A} (o : Outcome A) : M A := fun w => (o, w).

Definition log (ev : Event) : M unit :=
  fun w =>
    (Return tt,
     {| objects := objects w; store := store w; trace := trace w ++ [ev] |}).

(** *** The result cache ([szurubooru.func.cache]) *)

(** Modelled from the spec: the module [szurubooru.func.cache] is missing.
    Its contract is [has(key) -> bool], [get(key) -> cached_value] and
    [put(key, value)], an unbounded memo table without eviction whose
    keys compare by value.  [get] on a key that was never put is left
    open by the contract; it is a [KeyError] here. *)
Definition cache_has (key : Key) : M bool :=
  fun w => (Return (bool_decide (is_Some (store w !! key))), w).

Definition cache_get (key : Key) : M Result :=
  fun w =>
    match store w !! key with
    | Some value => (Return value, w)
    | None => (Raise KeyError, w)
    end.

Definition cache_put (key : Key) (value : Result) : M unit :=
  fun w =>
    (Return tt,
     {| objects := objects w; store := <[key := value]> (store w);
        trace := trace w ++ [call_cache_put key] |}).

(** ** The executor *)

(** [self.config] holds a reference to the config object. *)
Record Executor : Set := { config : Z }.

Definition self_config (self : Executor) : M (SearchConfig Entity) :=
  fun w => (Return (objects w (config self)), w).

(** [Executor._prepare_db_query], on the config object [self.config]
    refers to. *)
Definition _prepare_db_query (cfg : SearchConfig Entity)
           (db_query : Query Entity) (search_query : SearchQuery)
           (use_sort : bool) : Outcome (Query Entity) :=
  bindO (for_each
    (fun db_query token =>
       match anonymous_filter cfg with
       | None =>
           Raise (SearchError
                    (Plain "Anonymous tokens are not valid in this context."))
       | Some anonymous_filter =>
           Return (anonymous_filter db_query
                     (AnonymousToken.criterion token)
                     (AnonymousToken.negated token))
       end)
    (anonymous_tokens search_query) db_query) (fun db_query =>
  bindO (for_each
    (fun db_query token =>
       match named_filters cfg !! NamedToken.name token with
       | None =>
           Raise (SearchError
                    (Format
                       "Unknown named token: %r. Available named tokens: %r."
                       (NamedToken.name token)
                       (_format_dict_keys (named_filters cfg))))
       | Some named_filter =>
           Return (named_filter db_query
                     (NamedToken.criterion token)
                     (NamedToken.negated token))
       end)
    (named_tokens search_query) db_query) (fun db_query =>
  bindO (for_each
    (fun db_query token =>
       match special_filters cfg !! SpecialToken.value token with
       | None =>
           Raise (SearchError
                    (Format
                       "Unknown special token: %r. Available special tokens: %r."
                       (SpecialToken.value token)
                       (_format_dict_keys (special_filters cfg))))
       | Some special_filter =>
           Return (special_filter db_query (SpecialToken.negated token))
       end)
    (special_tokens search_query) db_query) (fun db_query =>
  bindO
    (if use_sort then
       for_each
         (fun db_query token =>
            match sort_columns cfg !! SortToken.name token with
            | None =>
                Raise (SearchError
                         (Format
                            "Unknown sort token: %r. Available sort tokens: %r."
                            (SortToken.name token)
                            (_format_dict_keys (sort_columns cfg))))
            | Some (column, default_direction) =>
                bindO (_get_direction (SortToken.direction token)
                                      default_direction)
                  (fun direction =>
                     if decide (direction = SORT_ASC) then
                       Return (Query_order_by (asc column) db_query)
                     else if decide (direction = SORT_DESC) then
                       Return (Query_order_by (desc column) db_query)
                     else Return db_query)
            end)
         (sort_tokens search_query) db_query
     else Return db_query) (fun db_query =>
  Return (finalize_query cfg db_query))))).

(** The traced calls of [execute]. *)
Definition parser_parse (query_text : string) : M SearchQuery :=
  log (call_parse query_text) ;;; ret (parse query_text).

Definition self_prepare_db_query (self : Executor) (db_query : Query Entity)
           (search_query : SearchQuery) (use_sort : bool)
  : M (Query Entity) :=
  log (call_prepare_db_query use_sort) ;;;
  cfg <- self_config self ;;
  lift (_prepare_db_query cfg db_query search_query use_sort).

Definition all (q : Query Entity) : M (list Entity) :=
  log call_all ;;; ret (Query_all q).

Definition db_session_execute (s : Select Entity) : M (list (Cell Entity)) :=
  log call_session_execute ;;; ret (session_execute s).

(** [Executor.execute]. *)
Definition execute (self : Executor) (query_text : string)
           (page page_size : Z) : M Result :=
  let key : Key := (config self, query_text, page, page_size) in
  hit <- cache_has key ;;
  if hit : bool then cache_get key
  else
    search_query <- parser_parse query_text ;;
    cfg <- self_config self ;;
    let filter_query := create_filter_query cfg in
    let filter_query := Query_options (lazyload "*") filter_query in
    filter_query <-
      self_prepare_db_query self filter_query search_query true ;;
    entities <-
      all (Query_limit page_size
             (Query_offset ((page - 1) * page_size) filter_query)) ;;
    cfg <- self_config self ;;
    let count_query := create_count_query cfg in
    let count_query := Query_options (lazyload "*") count_query in
    count_query <-
      self_prepare_db_query self count_query search_query false ;;
    let count_statement :=
      order_by_None (with_only_columns func_count (statement count_query)) in
    cells <- db_session_execute count_statement ;;
    let count := scalar cells in
    let ret_ := (count, entities) in
    cache_put key ret_ ;;;
    ret ret_.

(** ** Vocabulary of the claims *)

(** The four ways a token fails to resolve against a config. *)
Definition unresolved (cfg : SearchConfig Entity) (sq : SearchQuery) : Prop :=
  (anonymous_tokens sq <> [] /\ anonymous_filter cfg = None) \/
  (exists t, t ∈ named_tokens sq /\
             named_filters cfg !! NamedToken.name t = None) \/
  (exists t, t ∈ special_tokens sq /\
             special_filters cfg !! SpecialToken.value t = None) \/
  (exists t, t ∈ sort_tokens sq /\
             sort_columns cfg !! SortToken.name t = None).

(** Every configured default direction is ascending or descending. *)
Definition well_formed (cfg : SearchConfig Entity) : Prop :=
  forall name column default_direction,
    sort_columns cfg !! name = Some (column, default_direction) ->
    is_column_direction default_direction.

(** The filters of a query in application order, as one function on the
    query: anonymous, then named, then special tokens.  Tokens without a
    handler are skipped. *)
Definition apply_filters (cfg : SearchConfig Entity) (sq : SearchQuery)
           (q : Query Entity) : Query Entity :=
  let q :=
    fold_left
      (fun q t =>
         match anonymous_filter cfg with
         | Some f =>
             f q (AnonymousToken.criterion t) (AnonymousToken.negated t)
         | None => q
         end) (anonymous_tokens sq) q in
  let q :=
    fold_left
      (fun q t =>
         match named_filters cfg !! NamedToken.name t with
         | Some f => f q (NamedToken.criterion t) (NamedToken.negated t)
         | None => q
         end) (named_tokens sq) q in
  fold_left
    (fun q t =>
       match special_filters cfg !! SpecialToken.value t with
       | Some f => f q (SpecialToken.negated t)
       | None => q
       end) (special_tokens sq) q.

(** The order-by clause a sort token stands for, if it stands for one. *)
Definition sort_clause (cfg : SearchConfig Entity) (t : SortToken.t)
  : option (OrderClause Entity) :=
  match sort_columns cfg !! SortToken.name t with
  | Some (column, default_direction) =>
      match _get_direction (SortToken.direction t) default_direction with
      | Return SORT_ASC => Some (asc column)
      | Return SORT_DESC => Some (desc column)
      | _ => None
      end
  | None => None
  end.

(** A sort token the loop gets past: its column is configured and its
    direction resolves. *)
Definition sort_ok (cfg : SearchConfig Entity) (t : SortToken.t) : Prop :=
  match sort_columns cfg !! SortToken.name t with
  | Some (_, default_direction) =>
      match _get_direction (SortToken.direction t) default_direction with
      | Return _ => True
      | Raise _ => False
      end
  | None => False
  end.

(** What the loop raises at a sort token it does not get past. *)
Definition sort_error (cfg : SearchConfig Entity) (t : SortToken.t) : Exn :=
  match sort_columns cfg !! SortToken.name t with
  | None =>
      SearchError
        (Format "Unknown sort token: %r. Available sort tokens: %r."
           (SortToken.name t) (_format_dict_keys (sort_columns cfg)))
  | Some _ => AssertionError
  end.

Definition sort_step (cfg : SearchConfig Entity) (q : Query Entity)
           (t : SortToken.t) : Query Entity :=
  match sort_clause cfg t with
  | Some c => Query_order_by c q
  | None => q
  end.

(** The sort tokens of a query applied in listed order. *)
Definition apply_sorts (cfg : SearchConfig Entity) (sq : SearchQuery)
           (q : Query Entity) : Query Entity :=
  fold_left (sort_step cfg) (sort_tokens sq) q.

(** Every anonymous, named and special token has a handler. *)
Definition filters_resolve (cfg : SearchConfig Entity) (sq : SearchQuery)
  : Prop :=
  (anonymous_tokens sq = [] \/ is_Some (anonymous_filter cfg)) /\
  Forall (fun t => is_Some (named_filters cfg !! NamedToken.name t))
         (named_tokens sq) /\
  Forall (fun t => is_Some (special_filters cfg !! SpecialToken.value t))
         (special_tokens sq).

(** A config that is nothing but the table [rows]: both factories return
    the plain query over it and [finalize_query] changes nothing. *)
Definition plain_config (cfg : SearchConfig Entity) (rows : list Entity)
  : Prop :=
  create_filter_query cfg = session_query rows /\
  create_count_query cfg = session_query rows /\
  forall q, finalize_query cfg q = q.

(** What the empty query text parses to. *)
Definition no_tokens (sq : SearchQuery) : Prop :=
  sq = {| anonymous_tokens := []; named_tokens := []; special_tokens := [];
          sort_tokens := [] |}.

(** Worlds the executor can be in: any objects with an empty cache, and
    whatever calls to [execute] make of it. *)
Inductive reachable : World -> Prop :=
| reachable_start objs :
    reachable {| objects := objs; store := ∅; trace := [] |}
| reachable_execute w self query_text page page_size :
    reachable w ->
    reachable (execute self query_text page page_size w).2.

(** What holds of every cache entry in a reachable world.  The bound on
    the entities is that of [window]: it speaks for the code where the
    page size is not negative. *)
Definition store_ok (w : World) : Prop :=
  forall ref query_text page page_size count entities,
    store w !! (ref, query_text, page, page_size) = Some (count, entities) ->
    ~ unresolved (objects w ref) (parse query_text) /\
    (length entities <= Z.to_nat page_size)%nat.
End Executor.

(** ** A concrete instance

    Entities are pairs of a name key and a date key.  The parser stands in
    for the missing one on the few texts used below. *)

Module Posts.
Definition Post : Type := Z * Z.

Definition name_column : Column Post := {| col_key := fst |}.
Definition date_column : Column Post := {| col_key := snd |}.

Definition tag_filter : CriterionFilter Post :=
  fun q criterion negated =>
    Query_filter
      (fun e => xorb negated (e.1 =? Z.of_nat (String.length criterion))) q.

Definition user_filter : CriterionFilter Post :=
  fun q criterion negated =>
    Query_filter
      (fun e => xorb negated (e.2 =? Z.of_nat (String.length criterion))) q.

Definition liked_filter : FlagFilter Post :=
  fun q negated => Query_filter (fun e => xorb negated (0 <? e.1)) q.

Definition empty_query : SearchQuery :=
  {| anonymous_tokens := []; named_tokens := []; special_tokens := [];
     sort_tokens := [] |}.

Definition parse (text : string) : SearchQuery :=
  if decide (text = "foo:bar") then
    {| anonymous_tokens := [];
       named_tokens := [NamedToken.Build "foo" "bar" false];
       special_tokens := []; sort_tokens := [] |}
  else if decide (text = "tag:ab special:liked") then
    {| anonymous_tokens := [];
       named_tokens := [NamedToken.Build "tag" "ab" false];
       special_tokens := [SpecialToken.Build "liked" false];
       sort_tokens := [] |}
  else if decide (text = "sort:name sort:date") then
    {| anonymous_tokens := []; named_tokens := []; special_tokens := [];
       sort_tokens := [SortToken.Build "name" SORT_DEFAULT;
                       SortToken.Build "date" SORT_DEFAULT] |}
  else if decide (text = "hello") then
    {| anonymous_tokens := [AnonymousToken.Build "hello" false];
       named_tokens := []; special_tokens := []; sort_tokens := [] |}
  else empty_query.

(** A config over the table [rows]: no anonymous handler, named filters
    [tag] and [user], special filter [liked], sort columns [name]
    (ascending by default) and [date] (descending by default). *)
Definition posts_config (rows : list Post) : SearchConfig Post :=
  {| anonymous_filter := None;
     named_filters := <["user" := user_filter]> {["tag" := tag_filter]};
     special_filters := {["liked" := liked_filter]};
     sort_columns :=
       <["name" := (name_column, SORT_ASC)]>
         {["date" := (date_column, SORT_DESC)]};
     finalize_query := fun q => q;
     create_filter_query := session_query rows;
     create_count_query := session_query rows |}.

(** 150 entities, numbered 1 to 150. *)
Definition dataset : list Post :=
  (fun i => (Z.of_nat i, Z.of_nat (i mod 7))) <$> seq 1 150.

Definition small_dataset : list Post :=
  [(2, 5); (1, 3); (2, 9); (1, 8); (3, 0)].

(** Every identity holds a config over the same table: distinct
    identities, equal contents. *)
Definition start (rows : list Post) : World (Entity := Post) :=
  {| objects := fun _ => posts_config rows; store := ∅; trace := [] |}.

Definition executor : Executor := {| config := 7 |}.
End Posts.

(** ** The loops of [_prepare_db_query], one by one

    The four [for] loops of [_prepare_db_query] as functions of their own,
    for statements about a single loop; [_prepare_db_query] is their
    sequence followed by [finalize_query]. *)

Section PrepareLoops.
Context {Entity : Type}.

(** Lines 78-83. *)
Definition anonymous_loop (cfg : SearchConfig Entity)
           (tokens : list AnonymousToken.t) (db_query : Query Entity)
  : Outcome (Query Entity) :=
  for_each
    (fun db_query token =>
       match anonymous_filter cfg with
       | None =>
           Raise (SearchError
                    (Plain "Anonymous tokens are not valid in this context."))
       | Some anonymous_filter =>
           Return (anonymous_filter db_query
                     (AnonymousToken.criterion token)
                     (AnonymousToken.negated token))
       end)
    tokens db_query.

(** Lines 85-92. *)
Definition named_loop (cfg : SearchConfig Entity)
           (tokens : list NamedToken.t) (db_query : Query Entity)
  : Outcome (Query Entity) :=
  for_each
    (fun db_query token =>
       match named_filters cfg !! NamedToken.name token with
       | None =>
           Raise (SearchError
                    (Format
                       "Unknown named token: %r. Available named tokens: %r."
                       (NamedToken.name token)
                       (_format_dict_keys (named_filters cfg))))
       | Some named_filter =>
           Return (named_filter db_query
                     (NamedToken.criterion token)
                     (NamedToken.negated token))
       end)
    tokens db_query.

(** Lines 94-101. *)
Definition special_loop (cfg : SearchConfig Entity)
           (tokens : list SpecialToken.t) (db_query : Query Entity)
  : Outcome (Query Entity) :=
  for_each
    (fun db_query token =>
       match special_filters cfg !! SpecialToken.value token with
       | None =>
           Raise (SearchError
                    (Format
                       "Unknown special token: %r. Available special tokens: %r."
                       (SpecialToken.value token)
                       (_format_dict_keys (special_filters cfg))))
       | Some special_filter =>
           Return (special_filter db_query (SpecialToken.negated token))
       end)
    tokens db_query.

(** Lines 104-115. *)
Definition sort_loop (cfg : SearchConfig Entity)
           (tokens : list SortToken.t) (db_query : Query Entity)
  : Outcome (Query Entity) :=
  for_each
    (fun db_query token =>
       match sort_columns cfg !! SortToken.name token with
       | None =>
           Raise (SearchError
                    (Format
                       "Unknown sort token: %r. Available sort tokens: %r."
                       (SortToken.name token)
                       (_format_dict_keys (sort_columns cfg))))
       | Some (column, default_direction) =>
           bindO (_get_direction (SortToken.direction token)
                                 default_direction)
             (fun direction =>
                if decide (direction = SORT_ASC) then
                  Return (Query_order_by (asc column) db_query)
                else if decide (direction = SORT_DESC) then
                  Return (Query_order_by (desc column) db_query)
                else Return db_query)
       end)
    tokens db_query.

(** The rows a query selects, in its order, before OFFSET and LIMIT. *)
Definition matching_rows (q : Query Entity) : list Entity :=
  sort_rows (q_order_by q) (List.filter (matches (q_where q)) (q_from q)).

(** A named token with a handler, a special token with a handler. *)
Definition named_ok (cfg : SearchConfig Entity) (t : NamedToken.t) : Prop :=
  is_Some (named_filters cfg !! NamedToken.name t).

Definition special_ok (cfg : SearchConfig Entity) (t : SpecialToken.t)
  : Prop :=
  is_Some (special_filters cfg !! SpecialToken.value t).

Definition anonymous_ok (cfg : SearchConfig Entity) (sq : SearchQuery)
  : Prop :=
  anonymous_tokens sq = [] \/ is_Some (anonymous_filter cfg).
End PrepareLoops.

(** ** [Executor.execute_and_serialize] *)

(** The dict returned by [execute_and_serialize]. *)
Module Envelope.
Record t (Entity Repr : Type) : Type := Build {
  query : string;
  page : Z;
  pageSize : Z;
  total : option (Cell Entity);
  results : list Repr
}.
Arguments Build {Entity Repr}.
Arguments query {Entity Repr}.
Arguments page {Entity Repr}.
Arguments pageSize {Entity Repr}.
Arguments total {Entity Repr}.
Arguments results {Entity Repr}.
End Envelope.

(** How a call of [execute_and_serialize] ends: with the dict, with an
    exception of the executor, with an error raised by the request
    context while reading a parameter, or with an error raised by the
    serializer on an entity. *)
Inductive ApiOutcome (CtxError SerError A : Type) : Type :=
| ApiReturn (a : A)
| ApiRaise (e : Exn)
| ApiCtxRaise (e : CtxError)
| ApiSerializerRaise (e : SerError).
Arguments ApiReturn {CtxError SerError A} a.
Arguments ApiRaise {CtxError SerError A} e.
Arguments ApiCtxRaise {CtxError SerError A} e.
Arguments ApiSerializerRaise {CtxError SerError A} e.

(** [[serializer(entity) for entity in entities]]: the entities are
    serialised in order and the first error leaves the comprehension. *)
Fixpoint serialize_all {Entity Repr SerError : Type}
         (serializer : Entity -> SerError + Repr) (entities : list Entity)
  : SerError + list Repr :=
  match entities with
  | [] => inr []
  | entity :: rest =>
      match serializer entity with
      | inl e => inl e
      | inr repr =>
          match serialize_all serializer rest with
          | inl e => inl e
          | inr reprs => inr (repr :: reprs)
          end
      end
  end.

Section Serialize.
Context {Entity Repr CtxError SerError : Type}.
Variable parse : string -> SearchQuery.

(** The request context [ctx]: its two getters are not part of the
    executor.  Each returns the parameter or raises an error of the
    context; [get_param_as_int] takes the keywords [default], [min] and
    [max], absent when not passed. *)
Record RequestContext : Type := {
  get_param_as_string : string -> CtxError + string;
  get_param_as_int :
    string -> option Z -> option Z -> option Z -> CtxError + Z
}.

Definition execute_and_serialize (self : Executor) (ctx : RequestContext)
           (serializer : Entity -> SerError + Repr)
  : World (Entity := Entity) ->
    ApiOutcome CtxError SerError (Envelope.t Entity Repr) *
    World (Entity := Entity) :=
  fun w =>
    match get_param_as_string ctx "query" with
    | inl e => (ApiCtxRaise e, w)
    | inr query =>
        match get_param_as_int ctx "page" (Some 1) (Some 1) None with
        | inl e => (ApiCtxRaise e, w)
        | inr page =>
            match get_param_as_int ctx "pageSize" (Some 100) (Some 1)
                                   (Some 100) with
            | inl e => (ApiCtxRaise e, w)
            | inr page_size =>
                match execute parse self query page page_size w with
                | (Return (count, entities), w') =>
                    match serialize_all serializer entities with
                    | inr results =>
                        (ApiReturn
                           {| Envelope.query := query;
                              Envelope.page := page;
                              Envelope.pageSize := page_size;
                              Envelope.total := count;
                              Envelope.results := results |},
                         w')
                    | inl e => (ApiSerializerRaise e, w')
                    end
                | (Raise e, w') => (ApiRaise e, w')
                end
            end
        end
    end.
End Serialize.

(** ** The error handlers of the application ([szurubooru/app.py]) *)

Module App.
(** The falcon errors the handlers raise, with their [title] and
    [description]. *)
Inductive HTTPError : Set :=
| HTTPForbidden (title description : string)
| HTTPBadRequest (title description : string)
| HTTPConflict (title description : string)
| HTTPNotFound (title description : string).

Definition title (e : HTTPError) : string :=
  match e with
  | HTTPForbidden t _ | HTTPBadRequest t _ | HTTPConflict t _
  | HTTPNotFound t _ => t
  end.

Definition description (e : HTTPError) : string :=
  match e with
  | HTTPForbidden _ d | HTTPBadRequest _ d | HTTPConflict _ d
  | HTTPNotFound _ d => d
  end.

(** How a handler call ends. *)
Inductive Ended : Set :=
| returned
| raised (e : HTTPError)
| raised_IndexError.

(** The exception classes of [szurubooru.errors] registered by
    [create_app]. *)
Inductive ErrorClass : Set :=
| AuthError
| IntegrityError
| ValidationError
| SearchError
| NotFoundError
| ProcessingError.

(** An exception object: its [args]. *)
Record Error : Set := { args : list string }.

Section Handlers.
Context {Request Response Params : Type}.

(** [str(ex)], defined by the exception classes, which are not part of
    the application module. *)
Variable str : Error -> string.

Definition Handler : Type := Error -> Request -> Response -> Params -> Ended.

Definition _on_auth_error : Handler :=
  fun ex _request _response _params =>
    raised (HTTPForbidden "Authentication error" (str ex)).

Definition _on_validation_error : Handler :=
  fun ex _request _response _params =>
    raised (HTTPBadRequest "Validation error" (str ex)).

Definition _on_search_error : Handler :=
  fun ex _request _response _params =>
    raised (HTTPBadRequest "Search error" (str ex)).

(** [ex.args[0]] raises [IndexError] on an empty tuple. *)
Definition _on_integrity_error : Handler :=
  fun ex _request _response _params =>
    match args ex with
    | first :: _ => raised (HTTPConflict "Integrity violation" first)
    | [] => raised_IndexError
    end.

Definition _on_not_found_error : Handler :=
  fun ex _request _response _params =>
    raised (HTTPNotFound "Not found" (str ex)).

Definition _on_processing_error : Handler :=
  fun ex _request _response _params =>
    raised (HTTPBadRequest "Processing error" (str ex)).

(** The [add_error_handler] calls of [create_app], in order. *)
Definition error_handlers : list (ErrorClass * Handler) :=
  [(AuthError, _on_auth_error);
   (IntegrityError, _on_integrity_error);
   (ValidationError, _on_validation_error);
   (SearchError, _on_search_error);
   (NotFoundError, _on_not_found_error);
   (ProcessingError, _on_processing_error)].
End Handlers.
End App.

(** ** More of the concrete instance *)

Module Fixtures.
Import Posts.

Definition anything_filter : CriterionFilter Post :=
  fun q criterion negated =>
    Query_filter
      (fun e => xorb negated (Z.of_nat (String.length criterion) <=? e.1)) q.

(** A config with an anonymous handler and a sort column [rank] whose
    configured default is not a column direction. *)
Definition odd_config (rows : list Post) : SearchConfig Post :=
  {| anonymous_filter := Some anything_filter;
     named_filters := {["tag" := tag_filter]};
     special_filters := {["liked" := liked_filter]};
     sort_columns := {["rank" := (name_column, SORT_DEFAULT)]};
     finalize_query := fun q => q;
     create_filter_query := session_query rows;
     create_count_query := session_query rows |}.

(** A config without any handler or sort column. *)
Definition bare_config (rows : list Post) : SearchConfig Post :=
  {| anonymous_filter := None;
     named_filters := ∅;
     special_filters := ∅;
     sort_columns := ∅;
     finalize_query := fun q => q;
     create_filter_query := session_query rows;
     create_count_query := session_query rows |}.

Definition rank_only (direction : direction_t) : SearchQuery :=
  {| anonymous_tokens := []; named_tokens := []; special_tokens := [];
     sort_tokens := [SortToken.Build "rank" direction] |}.

(** Several things wrong at once. *)
Definition messy_query : SearchQuery :=
  {| anonymous_tokens := [AnonymousToken.Build "hello" false];
     named_tokens := [NamedToken.Build "tag" "ab" false;
                      NamedToken.Build "foo" "bar" false;
                      NamedToken.Build "baz" "" true];
     special_tokens := [SpecialToken.Build "liked" false;
                        SpecialToken.Build "fav" false];
     sort_tokens := [SortToken.Build "rank" SORT_NEGATED_DEFAULT;
                     SortToken.Build "nope" SORT_ASC] |}.

(** The same, with only the first named token. *)
Definition tidy_query : SearchQuery :=
  {| anonymous_tokens := anonymous_tokens messy_query;
     named_tokens := [NamedToken.Build "tag" "ab" false];
     special_tokens := special_tokens messy_query;
     sort_tokens := sort_tokens messy_query |}.

(** The same, with only the first special token as well. *)
Definition sorting_query : SearchQuery :=
  {| anonymous_tokens := anonymous_tokens messy_query;
     named_tokens := [NamedToken.Build "tag" "ab" false];
     special_tokens := [SpecialToken.Build "liked" false];
     sort_tokens := sort_tokens messy_query |}.

(** A parser that knows three more texts. *)
Definition rank_parse (text : string) : SearchQuery :=
  if decide (text = "sort:rank") then rank_only SORT_DEFAULT
  else if decide (text = "-sort:rank") then rank_only SORT_NEGATED_DEFAULT
  else if decide (text = "-sort:rank sort:nope") then
    {| anonymous_tokens := []; named_tokens := []; special_tokens := [];
       sort_tokens := sort_tokens messy_query |}
  else parse text.

Definition odd_start (rows : list Post) : World (Entity := Post) :=
  {| objects := fun _ => odd_config rows; store := ∅; trace := [] |}.

(** A request context with fixed parameters; integers fall back to their
    default. *)
Definition fixed_ctx (query : string) (page page_size : option Z)
  : RequestContext (CtxError := string) :=
  {| get_param_as_string := fun name =>
       if decide (name = "query") then inr query
       else inl ("missing " ++ name)%string;
     get_param_as_int := fun name default min max =>
       let given :=
         if decide (name = "page") then page
         else if decide (name = "pageSize") then page_size
         else None in
       match given, default with
       | Some n, _ => inr n
       | None, Some d => inr d
       | None, None => inl ("missing " ++ name)%string
       end |}.

(** A context whose [page] parameter is rejected. *)
Definition bad_page_ctx : RequestContext (CtxError := string) :=
  {| get_param_as_string := fun _ => inr ""%string;
     get_param_as_int := fun name default min max =>
       if decide (name = "page") then inl "page must be at least 1"%string
       else inr 100 |}.

Definition serializer (e : Post) : string + string :=
  if e.1 <? e.2 then inr "early"%string else inr "late"%string.

(** A serializer that rejects entities whose date key is 9. *)
Definition picky_serializer (e : Post) : string + string :=
  if e.2 =? 9 then inl "no date"%string else serializer e.

(** The world [start rows] after its configs were swapped for [cfg]. *)
Definition swap_objects (cfg : SearchConfig Post)
           (w : World (Entity := Post)) : World (Entity := Post) :=
  {| objects := fun _ => cfg; store := store w; trace := trace w |}.
End Fixtures.

(** ** Theorems on sort-direction resolution *)

(** C5. With a configured default of Ascending, Default resolves to
    Ascending and NegatedDefault to Descending; with a configured default of
    Descending, Default resolves to Descending and NegatedDefault to
    Ascending; an explicit Ascending or Descending resolves to itself
    whatever the configured default is. *)
Theorem get_direction_resolution :
  _get_direction SORT_DEFAULT SORT_ASC = Return SORT_ASC /\
  _get_direction SORT_NEGATED_DEFAULT SORT_ASC = Return SORT_DESC /\
  _get_direction SORT_DEFAULT SORT_DESC = Return SORT_DESC /\
  _get_direction SORT_NEGATED_DEFAULT SORT_DESC = Return SORT_ASC /\
  (forall default_direction,
      _get_direction SORT_ASC default_direction = Return SORT_ASC /\
      _get_direction SORT_DESC default_direction = Return SORT_DESC).
Proof.
  repeat split; try reflexivity; destruct default_direction; reflexivity.
Qed.

(** C6. Resolution is total: when the configured default is Ascending or
    Descending, every one of the four directions resolves to Ascending or
    to Descending, and the failing assertion is never reached. *)
Theorem get_direction_total (direction default_direction : direction_t) :
  is_column_direction default_direction ->
  (_get_direction direction default_direction = Return SORT_ASC \/
   _get_direction direction default_direction = Return SORT_DESC) /\
  _get_direction direction default_direction <> Raise AssertionError.
Proof.
  intros [-> | ->]; destruct direction; cbn; split; auto; discriminate.
Qed.

Lemma get_direction_total_witness :
  is_column_direction SORT_DESC /\
  (_get_direction SORT_NEGATED_DEFAULT SORT_DESC = Return SORT_ASC \/
   _get_direction SORT_NEGATED_DEFAULT SORT_DESC = Return SORT_DESC) /\
  _get_direction SORT_NEGATED_DEFAULT SORT_DESC <> Raise AssertionError.
Proof.
  split; [right; reflexivity |].
  apply (get_direction_total SORT_NEGATED_DEFAULT SORT_DESC).
  right; reflexivity.
Defined.

(** ** Loops *)

Section Loops.
Context {A T : Type}.
Implicit Types (body : A -> T -> Outcome A) (step : A -> T -> A).

(** A loop whose body either applies [step] (on items that are [ok]) or
    raises an exception that depends on the item alone, either runs the
    fold to its end or raises at an item that is not [ok]. *)
Lemma for_each_cases body step (ok : T -> Prop) (err : T -> Exn)
      `{!forall x, Decision (ok x)} :
  (forall acc x, ok x -> body acc x = Return (step acc x)) ->
  (forall acc x, ~ ok x -> body acc x = Raise (err x)) ->
  forall items acc,
    (Forall ok items /\
     for_each body items acc = Return (fold_left step items acc)) \/
    (exists x, x ∈ items /\ ~ ok x /\ for_each body items acc = Raise (err x)).
Proof.
  intros Hok Herr items.
  induction items as [| x rest IH]; intros acc; cbn.
  - left; split; [constructor | reflexivity].
  - destruct (decide (ok x)) as [Hx | Hx].
    + rewrite (Hok _ _ Hx); cbn.
      destruct (IH (step acc x)) as [[Hall Heq] | (y & Hin & Hy & Heq)].
      * left; split; [constructor; assumption | exact Heq].
      * right; exists y; repeat split; [right | |]; assumption.
    + right; exists x; rewrite (Herr _ _ Hx); cbn.
      repeat split; [left | assumption].
Qed.

Lemma for_each_nil body acc : for_each body [] acc = Return acc.
Proof. reflexivity. Qed.
End Loops.

(** ** Ordering of rows *)

Section Ordering.
Context {Entity : Type}.
Implicit Types (clauses : list (OrderClause Entity)) (a b c x : Entity).
Implicit Types (rows : list Entity).

Lemma order_leb_total clauses a b :
  order_leb clauses a b = false -> order_leb clauses b a = true.
Proof.
  induction clauses as [| [col | col] rest IH]; cbn; [discriminate | |];
    repeat case_match; try discriminate; try reflexivity; auto; lia.
Qed.

Lemma order_leb_trans clauses a b c :
  order_leb clauses a b = true -> order_leb clauses b c = true ->
  order_leb clauses a c = true.
Proof.
  induction clauses as [| [col | col] rest IH]; cbn; [reflexivity | |];
    repeat case_match; try discriminate; try reflexivity; auto; lia.
Qed.

#[local] Instance order_le_trans clauses : Transitive (order_le clauses).
Proof. intros a b c; apply order_leb_trans. Qed.

(** With two clauses: the first decides, the second breaks its ties. *)
Lemma order_le_two (c1 c2 : OrderClause Entity) a b :
  order_le [c1; c2] a b <->
  clause_before c1 a b \/
  (clause_tie c1 a b /\ (clause_before c2 a b \/ clause_tie c2 a b)).
Proof.
  unfold order_le, clause_before, clause_tie; cbn.
  destruct (clause_keys c1 a b) as [k1 k1'], (clause_keys c2 a b) as [k2 k2'].
  cbn; repeat case_match; split; intros; try discriminate; lia.
Qed.

Lemma insert_row_Forall (P : Entity -> Prop) clauses x rows :
  P x -> Forall P rows -> Forall P (insert_row clauses x rows).
Proof.
  intros Hx; induction 1 as [| y rest Hy Hrest IH]; cbn.
  - repeat constructor; assumption.
  - case_match; repeat constructor; assumption.
Qed.

Lemma insert_row_sorted clauses x rows :
  StronglySorted (order_le clauses) rows ->
  StronglySorted (order_le clauses) (insert_row clauses x rows).
Proof.
  induction 1 as [| y rest Hsorted IH Hall]; cbn.
  - repeat constructor.
  - destruct (order_leb clauses x y) eqn:Hxy.
    + constructor; [constructor; assumption |].
      constructor; [exact Hxy |].
      eapply Forall_impl; [exact Hall |].
      intros z Hyz; exact (order_leb_trans _ _ _ _ Hxy Hyz).
    + constructor; [exact IH |].
      apply insert_row_Forall; [| exact Hall].
      apply order_leb_total, Hxy.
Qed.

Lemma sort_rows_sorted clauses rows :
  StronglySorted (order_le clauses) (sort_rows clauses rows).
Proof.
  induction rows as [| x rest IH]; cbn; [constructor |].
  apply insert_row_sorted, IH.
Qed.

Lemma insert_row_length clauses x rows :
  length (insert_row clauses x rows) = S (length rows).
Proof.
  induction rows as [| y rest IH]; cbn; [reflexivity |].
  destruct (order_leb clauses x y); cbn; [reflexivity | now rewrite IH].
Qed.

Lemma sort_rows_length clauses rows :
  length (sort_rows clauses rows) = length rows.
Proof.
  induction rows as [| x rest IH]; cbn; [reflexivity |].
  rewrite insert_row_length; f_equal; exact IH.
Qed.

(** Without order-by clauses the rows keep their source order. *)
Lemma sort_rows_nil rows : sort_rows [] rows = rows.
Proof.
  induction rows as [| x rest IH]; cbn; [reflexivity |].
  fold (sort_rows [] rest); rewrite IH; destruct rest; reflexivity.
Qed.

Lemma StronglySorted_drop {X} (R : relation X) n (l : list X) :
  StronglySorted R l -> StronglySorted R (drop n l).
Proof.
  intros H; revert n; induction H as [| x l H IH Hall]; intros [| n]; cbn;
    try constructor; auto.
Qed.

Lemma StronglySorted_take {X} (R : relation X) n (l : list X) :
  StronglySorted R l -> StronglySorted R (take n l).
Proof.
  intros H; revert n; induction H as [| x l H IH Hall]; intros [| n]; cbn;
    try constructor; auto.
  apply Forall_take, Hall.
Qed.

Lemma window_sorted {X} (R : relation X) offset limit (l : list X) :
  StronglySorted R l -> StronglySorted R (window offset limit l).
Proof.
  intros H; unfold window.
  destruct offset, limit;
    auto using StronglySorted_drop, StronglySorted_take.
Qed.

Lemma window_limit_length {X} offset n (l : list X) :
  (length (window offset (Some n) l) <= Z.to_nat n)%nat.
Proof. unfold window; rewrite length_take; lia. Qed.

(** The rows a query returns are ordered by its order-by clauses. *)
Lemma Query_all_sorted (q : Query Entity) :
  StronglySorted (order_le (q_order_by q)) (Query_all q).
Proof. apply window_sorted, sort_rows_sorted. Qed.
End Ordering.

(** ** Facts on [_prepare_db_query] *)

Section Prepare.
Context {Entity : Type}.
Implicit Types (cfg : SearchConfig Entity) (q : Query Entity).
Implicit Types (sq : SearchQuery).

#[local] Instance sort_ok_dec cfg t : Decision (sort_ok cfg t).
Proof.
  unfold sort_ok.
  destruct (sort_columns cfg !! SortToken.name t) as [[col dd] |];
    [destruct (_get_direction (direction t) dd) |]; apply _.
Defined.

Ltac loop_cases step ok err its :=
  match goal with
  | |- context [for_each ?body its ?acc] =>
      let Hok := fresh "Hok" in
      let Herr := fresh "Herr" in
      let Hall := fresh "Hall" in
      let Heq := fresh "Heq" in
      let tok := fresh "tok" in
      let Hin := fresh "Hin" in
      let Hbad := fresh "Hbad" in
      assert (Hok : forall a x, ok x -> body a x = Return (step a x));
      [ cbv beta
      | assert (Herr : forall a x, ~ ok x -> body a x = Raise (err x));
          [ cbv beta
          | destruct (for_each_cases body step ok err Hok Herr its acc)
                as [[Hall Heq] | (tok & Hin & Hbad & Heq)];
              rewrite Heq; cbn [bindO]; clear Hok Herr ] ]
  end.

Lemma sort_body_ok cfg q t :
  sort_ok cfg t ->
  match sort_columns cfg !! SortToken.name t with
  | None =>
      Raise (SearchError
               (Format "Unknown sort token: %r. Available sort tokens: %r."
                  (SortToken.name t) (_format_dict_keys (sort_columns cfg))))
  | Some (column, default_direction) =>
      bindO (_get_direction (direction t) default_direction)
        (fun direction =>
           if decide (direction = SORT_ASC) then
             Return (Query_order_by (asc column) q)
           else if decide (direction = SORT_DESC) then
             Return (Query_order_by (desc column) q)
           else Return q)
  end = Return (sort_step cfg q t).
Proof.
  unfold sort_ok, sort_step, sort_clause.
  destruct (sort_columns cfg !! SortToken.name t) as [[col dd] |]; [| tauto].
  destruct (_get_direction (direction t) dd) as [[] |]; cbn; tauto.
Qed.

Lemma sort_body_bad cfg q t :
  ~ sort_ok cfg t ->
  match sort_columns cfg !! SortToken.name t with
  | None =>
      Raise (SearchError
               (Format "Unknown sort token: %r. Available sort tokens: %r."
                  (SortToken.name t) (_format_dict_keys (sort_columns cfg))))
  | Some (column, default_direction) =>
      bindO (_get_direction (direction t) default_direction)
        (fun direction =>
           if decide (direction = SORT_ASC) then
             Return (Query_order_by (asc column) q)
           else if decide (direction = SORT_DESC) then
             Return (Query_order_by (desc column) q)
           else Return q)
  end = Raise (sort_error cfg t).
Proof.
  unfold sort_ok, sort_error.
  destruct (sort_columns cfg !! SortToken.name t) as [[col dd] |];
    [| reflexivity].
  destruct (_get_direction (direction t) dd) as [d | e] eqn:Hd; [tauto |].
  intros _; cbn.
  unfold _get_direction in Hd; repeat case_decide; congruence.
Qed.

(** Every way [_prepare_db_query] can end. *)
Lemma prepare_db_query_cases cfg q sq use_sort :
  (filters_resolve cfg sq /\
   (use_sort = true -> Forall (sort_ok cfg) (sort_tokens sq)) /\
   _prepare_db_query cfg q sq use_sort =
     Return (finalize_query cfg
               ((if use_sort then apply_sorts cfg sq else fun q => q)
                  (apply_filters cfg sq q)))) \/
  (anonymous_tokens sq <> [] /\ anonymous_filter cfg = None /\
   _prepare_db_query cfg q sq use_sort =
     Raise (SearchError
              (Plain "Anonymous tokens are not valid in this context."))) \/
  (exists t, t ∈ named_tokens sq /\
     named_filters cfg !! NamedToken.name t = None /\
     _prepare_db_query cfg q sq use_sort =
       Raise (SearchError
                (Format "Unknown named token: %r. Available named tokens: %r."
                   (NamedToken.name t)
                   (_format_dict_keys (named_filters cfg))))) \/
  (exists t, t ∈ special_tokens sq /\
     special_filters cfg !! SpecialToken.value t = None /\
     _prepare_db_query cfg q sq use_sort =
       Raise (SearchError
                (Format
                   "Unknown special token: %r. Available special tokens: %r."
                   (SpecialToken.value t)
                   (_format_dict_keys (special_filters cfg))))) \/
  (use_sort = true /\
   exists t, t ∈ sort_tokens sq /\ ~ sort_ok cfg t /\
     _prepare_db_query cfg q sq use_sort = Raise (sort_error cfg t)).
Proof.
  unfold _prepare_db_query, apply_filters, filters_resolve.
  loop_cases
    (fun q (t : AnonymousToken.t) =>
       match anonymous_filter cfg with
       | Some f => f q (AnonymousToken.criterion t) (AnonymousToken.negated t)
       | None => q
       end)
    (fun _ : AnonymousToken.t => is_Some (anonymous_filter cfg))
    (fun _ : AnonymousToken.t =>
       SearchError (Plain "Anonymous tokens are not valid in this context."))
    (anonymous_tokens sq).
  { intros acc x [f Hf]; rewrite Hf; reflexivity. }
  { intros acc x Hx; destruct (anonymous_filter cfg); [| reflexivity].
    exfalso; apply Hx; eauto. }
  2:{ right; left; repeat split.
      - intros Hnil; rewrite Hnil in Hin; inversion Hin.
      - destruct (anonymous_filter cfg); [| reflexivity].
        exfalso; apply Hbad; eauto. }
  loop_cases
    (fun q (t : NamedToken.t) =>
       match named_filters cfg !! NamedToken.name t with
       | Some f => f q (NamedToken.criterion t) (NamedToken.negated t)
       | None => q
       end)
    (fun t : NamedToken.t => is_Some (named_filters cfg !! NamedToken.name t))
    (fun t : NamedToken.t =>
       SearchError
         (Format "Unknown named token: %r. Available named tokens: %r."
            (NamedToken.name t) (_format_dict_keys (named_filters cfg))))
    (named_tokens sq).
  { intros acc x [f Hf]; rewrite Hf; reflexivity. }
  { intros acc x Hx; destruct (named_filters cfg !! _); [| reflexivity].
    exfalso; apply Hx; eauto. }
  2:{ right; right; left; exists tok; repeat split; [assumption |].
      destruct (named_filters cfg !! _); [| reflexivity].
      exfalso; apply Hbad; eauto. }
  loop_cases
    (fun q (t : SpecialToken.t) =>
       match special_filters cfg !! SpecialToken.value t with
       | Some f => f q (SpecialToken.negated t)
       | None => q
       end)
    (fun t : SpecialToken.t =>
       is_Some (special_filters cfg !! SpecialToken.value t))
    (fun t : SpecialToken.t =>
       SearchError
         (Format "Unknown special token: %r. Available special tokens: %r."
            (SpecialToken.value t) (_format_dict_keys (special_filters cfg))))
    (special_tokens sq).
  { intros acc x [f Hf]; rewrite Hf; reflexivity. }
  { intros acc x Hx; destruct (special_filters cfg !! _); [| reflexivity].
    exfalso; apply Hx; eauto. }
  2:{ right; right; right; left; exists tok; repeat split; [assumption |].
      destruct (special_filters cfg !! _); [| reflexivity].
      exfalso; apply Hbad; eauto. }
  assert (Hres : (anonymous_tokens sq = [] \/ is_Some (anonymous_filter cfg)) /\
                 Forall (fun t => is_Some (named_filters cfg !! NamedToken.name t))
                        (named_tokens sq) /\
                 Forall (fun t => is_Some
                                    (special_filters cfg !! SpecialToken.value t))
                        (special_tokens sq)).
  { repeat split; try assumption.
    destruct Hall as [| x l Hx _]; [left; reflexivity | right; exact Hx]. }
  destruct use_sort; cbn [bindO].
  - unfold apply_sorts.
    loop_cases (sort_step cfg) (sort_ok cfg) (sort_error cfg) (sort_tokens sq).
    { intros acc x Hx; apply sort_body_ok, Hx. }
    { intros acc x Hx; apply sort_body_bad, Hx. }
    + left; repeat split; tauto.
    + do 4 right; split; [reflexivity |]; exists tok; tauto.
  - left; repeat split; try tauto; discriminate.
Qed.
End Prepare.

(** ** Facts on [execute] *)

Section Execute.
Context {Entity : Type}.
Variable parse : string -> SearchQuery.
Implicit Types (w : World (Entity := Entity)) (self : Executor).
Implicit Types (cfg : SearchConfig Entity) (q : Query Entity).

(** A cache hit: the stored pair comes back and the world is untouched. *)
Lemma execute_hit w self query_text page page_size value :
  store w !! (config self, query_text, page, page_size) = Some value ->
  execute parse self query_text page page_size w = (Return value, w).
Proof.
  intros Hkey; unfold execute, bind, cache_has, cache_get; cbv beta zeta.
  rewrite bool_decide_eq_true_2 by eauto; rewrite Hkey; reflexivity.
Qed.

(** A cache miss, step by step. *)
Lemma execute_miss w self query_text page page_size :
  store w !! (config self, query_text, page, page_size) = None ->
  execute parse self query_text page page_size w =
  let key := (config self, query_text, page, page_size) in
  let cfg := objects w (config self) in
  let search_query := parse query_text in
  match _prepare_db_query cfg
          (Query_options (lazyload "*") (create_filter_query cfg))
          search_query true with
  | Raise e =>
      (Raise e,
       {| objects := objects w; store := store w;
          trace := trace w ++ [call_parse query_text;
                               call_prepare_db_query true] |})
  | Return filter_query =>
      match _prepare_db_query cfg
              (Query_options (lazyload "*") (create_count_query cfg))
              search_query false with
      | Raise e =>
          (Raise e,
           {| objects := objects w; store := store w;
              trace := trace w ++ [call_parse query_text;
                                   call_prepare_db_query true; call_all;
                                   call_prepare_db_query false] |})
      | Return count_query =>
          let entities :=
            Query_all (Query_limit page_size
                         (Query_offset ((page - 1) * page_size) filter_query)) in
          let count :=
            scalar (session_execute
                      (order_by_None
                         (with_only_columns func_count
                            (statement count_query)))) in
          (Return (count, entities),
           {| objects := objects w;
              store := <[key := (count, entities)]> (store w);
              trace := trace w ++ [call_parse query_text;
                                   call_prepare_db_query true; call_all;
                                   call_prepare_db_query false;
                                   call_session_execute;
                                   call_cache_put key] |})
      end
  end.
Proof.
  intros Hkey.
  unfold execute, bind, cache_has, cache_get, parser_parse,
    self_prepare_db_query, self_config, all, db_session_execute, cache_put,
    lift, log, ret, bind; cbv beta zeta.
  rewrite bool_decide_eq_false_2 by (rewrite Hkey; intros [? ?]; discriminate).
  cbn.
  destruct (_prepare_db_query _ _ _ true) as [fq | e]; cbn;
    [| rewrite <- !app_assoc; reflexivity].
  destruct (_prepare_db_query _ _ _ false) as [cq | e]; cbn;
    rewrite <- !app_assoc; reflexivity.
Qed.
End Execute.

(** ** Which queries [_prepare_db_query] rejects *)

Section Rejection.
Context {Entity : Type}.
Implicit Types (cfg : SearchConfig Entity) (q : Query Entity).
Implicit Types (sq : SearchQuery).

Lemma get_direction_returns direction default_direction :
  is_column_direction default_direction ->
  exists d, _get_direction direction default_direction = Return d /\
            is_column_direction d.
Proof.
  unfold is_column_direction.
  intros [-> | ->]; destruct direction; cbn; eauto.
Qed.

Lemma well_formed_sort_ok cfg tok :
  well_formed cfg ->
  is_Some (sort_columns cfg !! SortToken.name tok) -> sort_ok cfg tok.
Proof.
  intros Hwf [[col dd] Hlook]; unfold sort_ok; rewrite Hlook.
  destruct (get_direction_returns (direction tok) dd) as (d & -> & _);
    [eapply Hwf; eassumption | exact I].
Qed.

Lemma sort_ok_lookup cfg tok :
  sort_ok cfg tok -> is_Some (sort_columns cfg !! SortToken.name tok).
Proof.
  unfold sort_ok; destruct (sort_columns cfg !! SortToken.name tok);
    [eauto | tauto].
Qed.

Lemma resolved_not_unresolved cfg sq :
  filters_resolve cfg sq -> Forall (sort_ok cfg) (sort_tokens sq) ->
  ~ unresolved cfg sq.
Proof.
  intros (Hanon & Hnamed & Hspecial) Hsort.
  rewrite Forall_forall in Hnamed; rewrite Forall_forall in Hspecial.
  rewrite Forall_forall in Hsort.
  intros [[Hne Hnone] | [(tok & Hin & Hnone) | [(tok & Hin & Hnone)
                                               | (tok & Hin & Hnone)]]].
  - destruct Hanon as [Hnil | [f Hf]]; congruence.
  - destruct (Hnamed _ Hin); congruence.
  - destruct (Hspecial _ Hin); congruence.
  - destruct (sort_ok_lookup _ _ (Hsort _ Hin)); congruence.
Qed.


(** A query with a token that does not resolve never gets through the
    filter path. *)
Lemma prepare_unresolved cfg q sq :
  unresolved cfg sq ->
  exists e, _prepare_db_query cfg q sq true = Raise e /\
            (well_formed cfg -> exists msg, e = SearchError msg).
Proof.
  intros Hun.
  destruct (prepare_db_query_cases cfg q sq true)
    as [(Hres & Hsort & _) | [(_ & _ & Heq) | [(tok & _ & _ & Heq)
       | [(tok & _ & _ & Heq) | (_ & tok & Hin & Hbad & Heq)]]]];
    try (eexists; split; [exact Heq | eauto]).
  - exfalso; eapply resolved_not_unresolved; eauto.
  - intros Hwf; unfold sort_error.
    destruct (sort_columns cfg !! SortToken.name tok) eqn:Hlook; [| eauto].
    exfalso; apply Hbad, well_formed_sort_ok; eauto.
Qed.

(** Once the filter path got through, the count path gets through. *)
Lemma prepare_count_after_filter cfg q q' sq filter_query :
  _prepare_db_query cfg q sq true = Return filter_query ->
  _prepare_db_query cfg q' sq false =
    Return (finalize_query cfg (apply_filters cfg sq q')).
Proof.
  intros Hfilter.
  assert (Hres : ~ unresolved cfg sq).
  { intros Hun; destruct (prepare_unresolved cfg q sq Hun) as (e & He & _).
    congruence. }
  destruct (prepare_db_query_cases cfg q' sq false)
    as [(_ & _ & Heq) | [(Hne & Hnone & _) | [(tok & Hin & Hnone & _)
       | [(tok & Hin & Hnone & _) | (Hfalse & _)]]]].
  - exact Heq.
  - exfalso; apply Hres; left; auto.
  - exfalso; apply Hres; right; left; eauto.
  - exfalso; apply Hres; right; right; left; eauto.
  - discriminate.
Qed.

Lemma prepare_filter_return cfg q sq filter_query :
  _prepare_db_query cfg q sq true = Return filter_query ->
  filter_query =
    finalize_query cfg (apply_sorts cfg sq (apply_filters cfg sq q)) /\
  Forall (sort_ok cfg) (sort_tokens sq).
Proof.
  intros Hfilter.
  destruct (prepare_db_query_cases cfg q sq true)
    as [(_ & Hsort & Heq) | [(_ & _ & Heq) | [(tok & _ & _ & Heq)
       | [(tok & _ & _ & Heq) | (_ & tok & _ & _ & Heq)]]]];
    rewrite Heq in Hfilter; try discriminate.
  injection Hfilter as <-; auto.
Qed.
End Rejection.

(** ** The cache in reachable worlds *)

Section Invariant.
Context {Entity : Type}.
Variable parse : string -> SearchQuery.
Implicit Types (w : World (Entity := Entity)) (self : Executor).

Lemma execute_objects w self query_text page page_size :
  objects (execute parse self query_text page page_size w).2 = objects w.
Proof.
  destruct (store w !! (config self, query_text, page, page_size))
    as [value |] eqn:Hkey.
  - rewrite (execute_hit parse _ _ _ _ _ _ Hkey); reflexivity.
  - rewrite (execute_miss parse _ _ _ _ _ Hkey); cbv zeta.
    repeat case_match; reflexivity.
Qed.

Lemma execute_store_ok w self query_text page page_size :
  store_ok parse w ->
  store_ok parse (execute parse self query_text page page_size w).2.
Proof.
  intros Hok.
  destruct (store w !! (config self, query_text, page, page_size))
    as [value |] eqn:Hkey.
  - rewrite (execute_hit parse _ _ _ _ _ _ Hkey); exact Hok.
  - rewrite (execute_miss parse _ _ _ _ _ Hkey); cbv zeta.
    destruct (_prepare_db_query _ _ _ true) as [fq | e] eqn:Hfilter;
      [| exact Hok].
    destruct (_prepare_db_query _ _ _ false) as [cq | e] eqn:Hcount;
      [| exact Hok].
    intros ref text' page' size' count entities; cbn.
    destruct (decide ((config self, query_text, page, page_size) =
                      (ref, text', page', size'))) as [Heq | Hne].
    + rewrite Heq, lookup_insert_eq.
      injection Heq as <- <- <- <-.
      intros [= <- <-]; split.
      * intros Hun.
        destruct (prepare_unresolved (objects w (config self))
                    (Query_options (lazyload "*")
                       (create_filter_query (objects w (config self))))
                    (parse query_text) Hun) as (e & He & _).
        congruence.
      * rewrite length_take; lia.
    + rewrite lookup_insert_ne by exact Hne; apply Hok.
Qed.

Lemma reachable_store_ok w : reachable parse w -> store_ok parse w.
Proof.
  induction 1 as [objs | w self query_text page page_size _ IH].
  - intros ref text page size count entities; cbn.
    rewrite lookup_empty; discriminate.
  - apply execute_store_ok, IH.
Qed.
End Invariant.

(** ** Theorems on [execute]: errors and the cache *)

Section Claims.
Context {Entity : Type}.
Variable parse : string -> SearchQuery.
Implicit Types (w : World (Entity := Entity)) (self : Executor).


(** C10. A failed execution is not memoised: when [execute] raises a
    SearchError it has only parsed and validated, no backing query was
    executed and nothing was written to the cache, which is left as it
    was; the same call made again parses and validates again and raises
    the same SearchError. *)
Theorem failed_execute_not_cached w self query_text page page_size msg w1 :
  execute parse self query_text page page_size w =
    (Raise (SearchError msg), w1) ->
  store w1 = store w /\
  objects w1 = objects w /\
  trace w1 =
    trace w ++ [call_parse query_text; call_prepare_db_query true] /\
  exists w2,
    execute parse self query_text page page_size w1 =
      (Raise (SearchError msg), w2) /\
    store w2 = store w /\
    trace w2 =
      trace w1 ++ [call_parse query_text; call_prepare_db_query true].
Proof.
  intros Hexec.
  destruct (store w !! (config self, query_text, page, page_size))
    as [value |] eqn:Hkey.
  { rewrite (execute_hit parse _ _ _ _ _ _ Hkey) in Hexec; discriminate. }
  rewrite (execute_miss parse _ _ _ _ _ Hkey) in Hexec; cbv zeta in Hexec.
  destruct (_prepare_db_query _ _ _ true) as [fq | e] eqn:Hfilter.
  { rewrite (prepare_count_after_filter _ _ _ _ _ Hfilter) in Hexec.
    discriminate. }
  injection Hexec as -> <-; cbn [store objects trace].
  repeat split.
  eexists; split.
  - rewrite execute_miss by exact Hkey; cbv zeta; cbn [store objects trace].
    rewrite Hfilter; reflexivity.
  - split; reflexivity.
Qed.

(** C3. When [execute] returns [(count, entities)], the same call made
    again returns the same pair from the cache and leaves the world as it
    is: no parsing, no token validation, no backing query, no cache write.
    The first call, when it missed the cache, made exactly the calls
    parse, validate (filter path), [all], validate (count path),
    [session.execute] and one cache write: two backing queries and one
    entry written; when it hit the cache it changed nothing. *)
Theorem execute_twice w self query_text page page_size value w1 :
  execute parse self query_text page page_size w = (Return value, w1) ->
  execute parse self query_text page page_size w1 = (Return value, w1) /\
  (store w !! (config self, query_text, page, page_size) = None ->
   exists calls,
     trace w1 = trace w ++ calls /\
     calls = [call_parse query_text; call_prepare_db_query true; call_all;
              call_prepare_db_query false; call_session_execute;
              call_cache_put (config self, query_text, page, page_size)] /\
     length (List.filter is_backing_query calls) = 2%nat /\
     length (List.filter is_cache_put calls) = 1%nat /\
     store w1 =
       <[(config self, query_text, page, page_size) := value]> (store w)) /\
  (is_Some (store w !! (config self, query_text, page, page_size)) ->
   w1 = w).
Proof.
  intros Hexec.
  destruct (store w !! (config self, query_text, page, page_size))
    as [cached |] eqn:Hkey.
  - rewrite (execute_hit parse _ _ _ _ _ _ Hkey) in Hexec.
    injection Hexec as -> ->.
    split; [apply execute_hit, Hkey |].
    split; [discriminate | reflexivity].
  - rewrite (execute_miss parse _ _ _ _ _ Hkey) in Hexec; cbv zeta in Hexec.
    destruct (_prepare_db_query _ _ _ true) as [fq | e]; [| discriminate].
    destruct (_prepare_db_query _ _ _ false) as [cq | e]; [| discriminate].
    injection Hexec as <- <-.
    split; [apply execute_hit; cbn [store]; apply lookup_insert_eq |].
    split; [| intros [? ?]; discriminate].
    intros _; eexists; cbn [store trace]; repeat split.
Qed.

(** C9 (amended). The cache key is the tuple of the config's [id], the
    query text, the page and the page size, compared by value.  Two keys
    are equal exactly when the four components are; after an execution
    returned, a second execution whose four components are the same is
    served from that entry, whichever config object lives at that id by
    then, and one that differs in any component finds in the cache what
    it would have found before.  Configs with distinct ids never meet in
    the cache, whatever their contents. *)
Theorem cache_key_sharing w self1 text1 page1 size1 self2 text2 page2 size2
        value w1 objs :
  execute parse self1 text1 page1 size1 w = (Return value, w1) ->
  let w2 := {| objects := objs; store := store w1; trace := trace w1 |} in
  ((config self1, text1, page1, size1) = (config self2, text2, page2, size2)
   <-> config self1 = config self2 /\ text1 = text2 /\ page1 = page2 /\
       size1 = size2) /\
  (config self1 = config self2 /\ text1 = text2 /\ page1 = page2 /\
   size1 = size2 ->
   store w1 !! (config self2, text2, page2, size2) = Some value /\
   execute parse self2 text2 page2 size2 w1 = (Return value, w1) /\
   execute parse self2 text2 page2 size2 w2 = (Return value, w2)) /\
  (~ (config self1 = config self2 /\ text1 = text2 /\ page1 = page2 /\
      size1 = size2) ->
   store w1 !! (config self2, text2, page2, size2) =
   store w !! (config self2, text2, page2, size2)) /\
  (config self1 <> config self2 ->
   store w1 !! (config self2, text2, page2, size2) =
   store w !! (config self2, text2, page2, size2)).
Proof.
  intros Hexec w2.
  assert (Hkeys : (config self1, text1, page1, size1) =
                  (config self2, text2, page2, size2) <->
                  config self1 = config self2 /\ text1 = text2 /\
                  page1 = page2 /\ size1 = size2).
  { split; [intros [= -> -> -> ->]; auto | intros (-> & -> & -> & ->); auto]. }
  assert (Hstore : store w1 !! (config self1, text1, page1, size1) =
                     Some value /\
                   forall key, key <> (config self1, text1, page1, size1) ->
                               store w1 !! key = store w !! key).
  { destruct (store w !! (config self1, text1, page1, size1))
      as [cached |] eqn:Hkey.
    - rewrite (execute_hit parse _ _ _ _ _ _ Hkey) in Hexec.
      injection Hexec as -> ->; auto.
    - rewrite (execute_miss parse _ _ _ _ _ Hkey) in Hexec;
        cbv zeta in Hexec.
      destruct (_prepare_db_query _ _ _ true) as [fq | e]; [| discriminate].
      destruct (_prepare_db_query _ _ _ false) as [cq | e]; [| discriminate].
      injection Hexec as <- <-; cbn [store]; split.
      + apply lookup_insert_eq.
      + intros key Hne; apply lookup_insert_ne; congruence. }
  destruct Hstore as [Hsame Hother].
  split; [exact Hkeys |]; split; [| split].
  - intros (Hc & <- & <- & <-).
    destruct self1 as [c1], self2 as [c2]; cbn in Hc; subst c2.
    split; [exact Hsame |].
    split; apply execute_hit; exact Hsame.
  - intros Hne; apply Hother; intros Heq; apply Hne, Hkeys; auto.
  - intros Hne; apply Hother; intros [= Hc _ _ _]; auto.
Qed.
End Claims.

(** ** Theorems on [execute]: the page and the count *)

Section Pagination.
Context {Entity : Type}.
Variable parse : string -> SearchQuery.
Implicit Types (w : World (Entity := Entity)) (self : Executor).
Implicit Types (cfg : SearchConfig Entity) (rows : list Entity).

Lemma filter_matches_nil rows : List.filter (matches []) rows = rows.
Proof.
  induction rows as [| x rest IH]; cbn; [reflexivity | now rewrite IH].
Qed.

Lemma prepare_no_tokens cfg (q : Query Entity) sq use_sort :
  no_tokens sq ->
  _prepare_db_query cfg q sq use_sort = Return (finalize_query cfg q).
Proof. intros ->; destruct use_sort; reflexivity. Qed.

(** The page of a plain table. *)
Lemma Query_all_plain rows offset limit :
  Query_all (Query_limit limit
               (Query_offset offset
                  (Query_options (lazyload "*") (session_query rows)))) =
  take (Z.to_nat limit) (drop (Z.to_nat offset) rows).
Proof.
  unfold Query_all; cbn.
  fold (sort_rows [] (List.filter (matches []) rows)).
  rewrite sort_rows_nil, filter_matches_nil; reflexivity.
Qed.

Lemma count_plain rows :
  scalar (session_execute
            (order_by_None
               (with_only_columns func_count
                  (statement
                     (Query_options (lazyload "*") (session_query rows)))))) =
  Some (count_cell (Z.of_nat (length rows))).
Proof. unfold session_execute; cbn; rewrite filter_matches_nil; reflexivity. Qed.

(** C2. For page >= 1 and page_size in [1,100], in a world reached by
    calls to [execute], the entities returned are at most page_size; on a
    cache miss they are the rows of the prepared filter query fetched with
    offset (page-1)*page_size and limit page_size.  Over a plain table and
    the empty query this is the slice of the table at that offset and the
    count is the size of the table; for 150 rows, page 2 and page_size 100
    these are the rows 101 to 150, 50 of them, with total 150. *)
Theorem execute_page w self query_text page page_size count entities :
  reachable parse w ->
  1 <= page ->
  1 <= page_size <= 100 ->
  (execute parse self query_text page page_size w).1 =
    Return (count, entities) ->
  (length entities <= Z.to_nat page_size)%nat /\
  (store w !! (config self, query_text, page, page_size) = None ->
   let cfg := objects w (config self) in
   (exists filter_query,
       _prepare_db_query cfg
         (Query_options (lazyload "*") (create_filter_query cfg))
         (parse query_text) true = Return filter_query /\
       entities =
         Query_all (Query_limit page_size
                      (Query_offset ((page - 1) * page_size) filter_query))) /\
   (forall rows,
       plain_config cfg rows -> no_tokens (parse query_text) ->
       entities =
         take (Z.to_nat page_size)
              (drop (Z.to_nat ((page - 1) * page_size)) rows) /\
       count = Some (count_cell (Z.of_nat (length rows))) /\
       (length rows = 150%nat -> page = 2 -> page_size = 100 ->
        entities = drop 100 rows /\ length entities = 50%nat /\
        count = Some (count_cell 150)))).
Proof.
  intros Hreach Hpage Hsize Hexec.
  pose proof (reachable_store_ok parse w Hreach) as Hok.
  destruct (store w !! (config self, query_text, page, page_size))
    as [cached |] eqn:Hkey.
  { rewrite (execute_hit parse _ _ _ _ _ _ Hkey) in Hexec.
    injection Hexec as ->.
    split; [eapply Hok; exact Hkey | discriminate]. }
  rewrite (execute_miss parse _ _ _ _ _ Hkey) in Hexec; cbv zeta in Hexec.
  destruct (_prepare_db_query _ _ _ true) as [fq | e] eqn:Hfilter;
    [| discriminate].
  destruct (_prepare_db_query _ _ _ false) as [cq | e] eqn:Hcount;
    [| discriminate].
  injection Hexec as <- <-.
  split; [apply window_limit_length |].
  intros _; cbv zeta; split; [eauto |].
  intros rows (Hfq & Hcq & Hfin) Hno.
  rewrite (prepare_no_tokens _ _ _ _ Hno), Hfin, Hfq in Hfilter.
  rewrite (prepare_no_tokens _ _ _ _ Hno), Hfin, Hcq in Hcount.
  injection Hfilter as <-; injection Hcount as <-.
  rewrite Query_all_plain, count_plain.
  repeat split.
  - subst page page_size; change (Z.to_nat ((2 - 1) * 100)) with 100%nat.
    change (Z.to_nat 100) with 100%nat.
    apply take_ge; rewrite length_drop; lia.
  - subst page page_size; change (Z.to_nat ((2 - 1) * 100)) with 100%nat.
    change (Z.to_nat 100) with 100%nat.
    rewrite length_take, length_drop; lia.
  - f_equal; f_equal; lia.
Qed.

End Pagination.

(** ** Theorems on the error messages *)

Section Messages.
Context {Entity : Type}.
Implicit Types (cfg : SearchConfig Entity) (q : Query Entity).

#[local] Instance string_le_total : Total string_le.
Proof. intros a b; apply String.leb_total. Qed.

#[local] Instance string_le_antisym : AntiSymm (=) string_le.
Proof. intros a b; apply String.leb_antisym. Qed.

#[local] Instance string_le_trans : Transitive string_le.
Proof.
  unfold string_le, String.leb.
  intros a; induction a as [| x a IH]; intros [| y b] [| z c]; cbn;
    try congruence.
  unfold Ascii.compare.
  destruct (N.compare_spec (Ascii.N_of_ascii x) (Ascii.N_of_ascii y)) as [Hxy | Hxy | Hxy],
    (N.compare_spec (Ascii.N_of_ascii y) (Ascii.N_of_ascii z)) as [Hyz | Hyz | Hyz],
    (N.compare_spec (Ascii.N_of_ascii x) (Ascii.N_of_ascii z)) as [Hxz | Hxz | Hxz];
    try congruence; try lia.
  apply IH.
Qed.

(** [_format_dict_keys] lists the keys of the dict, each once, in
    lexicographic order. *)
Lemma format_dict_keys_spec {V} (source : gmap string V) :
  StronglySorted string_le (_format_dict_keys source) /\
  NoDup (_format_dict_keys source) /\
  forall k, k ∈ _format_dict_keys source <-> is_Some (source !! k).
Proof.
  unfold _format_dict_keys.
  pose proof (merge_sort_Permutation string_le (map_to_list source).*1)
    as Hperm.
  split; [apply StronglySorted_merge_sort; apply _ |].
  split; [rewrite Hperm; apply NoDup_fst_map_to_list |].
  intros k; rewrite Hperm, list_elem_of_fmap; split.
  - intros ([k' v] & -> & Hin); apply elem_of_map_to_list in Hin; eauto.
  - intros [v Hv]; exists (k, v); split; [reflexivity |].
    apply elem_of_map_to_list, Hv.
Qed.

Lemma format_dict_keys_unique {V} (source : gmap string V) keys :
  Sorted string_le keys -> NoDup keys ->
  (forall k, k ∈ keys <-> is_Some (source !! k)) ->
  _format_dict_keys source = keys.
Proof.
  intros Hsorted Hnodup Hkeys.
  destruct (format_dict_keys_spec source) as (Hs & Hn & Hk).
  apply (Sorted_unique string_le);
    [apply StronglySorted_Sorted, Hs | exact Hsorted |].
  apply NoDup_Permutation; [exact Hn | exact Hnodup |].
  intros k; rewrite Hk, Hkeys; reflexivity.
Qed.

(** C7. Whenever [_prepare_db_query] raises an unknown-token SearchError,
    the message carries the offending name and the keys of the dict the
    name was looked up in: all of them, each once, in lexicographic
    order.  With [named_filters] keyed by tag and user, the named token
    foo:bar fails with the message listing exactly ["tag"; "user"]. *)
Theorem unknown_token_message :
  (forall cfg q sq use_sort template name available,
      _prepare_db_query cfg q sq use_sort =
        Raise (SearchError (Format template name available)) ->
      StronglySorted string_le available /\
      NoDup available /\
      ((template = "Unknown named token: %r. Available named tokens: %r." /\
        (exists tok, tok ∈ named_tokens sq /\ NamedToken.name tok = name) /\
        named_filters cfg !! name = None /\
        forall k, k ∈ available <-> is_Some (named_filters cfg !! k)) \/
       (template =
          "Unknown special token: %r. Available special tokens: %r." /\
        (exists tok, tok ∈ special_tokens sq /\
                     SpecialToken.value tok = name) /\
        special_filters cfg !! name = None /\
        forall k, k ∈ available <-> is_Some (special_filters cfg !! k)) \/
       (template = "Unknown sort token: %r. Available sort tokens: %r." /\
        (exists tok, tok ∈ sort_tokens sq /\ SortToken.name tok = name) /\
        sort_columns cfg !! name = None /\
        forall k, k ∈ available <-> is_Some (sort_columns cfg !! k)))) /\
  (forall cfg q use_sort criterion negated,
      (forall k, is_Some (named_filters cfg !! k) <->
                 k = "tag" \/ k = "user") ->
      _prepare_db_query cfg q
        {| anonymous_tokens := [];
           named_tokens := [NamedToken.Build "foo" criterion negated];
           special_tokens := []; sort_tokens := [] |} use_sort =
        Raise (SearchError
                 (Format
                    "Unknown named token: %r. Available named tokens: %r."
                    "foo" ["tag"; "user"]))).
Proof.
  split.
  - intros cfg q sq use_sort template name available Hraise.
    destruct (prepare_db_query_cases cfg q sq use_sort)
      as [(_ & _ & Heq) | [(_ & _ & Heq) | [(tok & Hin & Hnone & Heq)
         | [(tok & Hin & Hnone & Heq) | (_ & tok & Hin & Hbad & Heq)]]]];
      rewrite Heq in Hraise; try discriminate.
    + injection Hraise as <- <- <-.
      destruct (format_dict_keys_spec (named_filters cfg)) as (Hs & Hn & Hk).
      repeat split; try assumption; left; eauto 10.
    + injection Hraise as <- <- <-.
      destruct (format_dict_keys_spec (special_filters cfg)) as (Hs & Hn & Hk).
      repeat split; try assumption; right; left; eauto 10.
    + unfold sort_error in Hraise.
      destruct (sort_columns cfg !! SortToken.name tok) eqn:Hnone;
        [discriminate |].
      injection Hraise as <- <- <-.
      destruct (format_dict_keys_spec (sort_columns cfg)) as (Hs & Hn & Hk).
      repeat split; try assumption; right; right; eauto 10.
  - intros cfg q use_sort criterion negated Hkeys.
    unfold _prepare_db_query; cbn.
    destruct (named_filters cfg !! "foo") as [f |] eqn:Hfoo.
    { assert (Hsome : is_Some (named_filters cfg !! "foo")) by eauto.
      apply Hkeys in Hsome as [? | ?]; discriminate. }
    cbn; do 3 f_equal.
    apply format_dict_keys_unique.
    + repeat constructor.
    + apply NoDup_cons; split; [| apply NoDup_singleton].
      rewrite list_elem_of_singleton; discriminate.
    + intros k; rewrite Hkeys, elem_of_cons, list_elem_of_singleton.
      reflexivity.
Qed.
End Messages.

(** ** Theorem on sort tokens *)

Section Sorting.
Context {Entity : Type}.
Implicit Types (cfg : SearchConfig Entity) (q : Query Entity).

Lemma order_by_clauses (clauses : list (OrderClause Entity)) q :
  let sorted := fold_left (fun q c => Query_order_by c q) clauses q in
  q_order_by sorted = q_order_by q ++ clauses /\
  q_from sorted = q_from q /\ q_where sorted = q_where q /\
  q_offset sorted = q_offset q /\ q_limit sorted = q_limit q /\
  q_options sorted = q_options q.
Proof.
  revert q; induction clauses as [| c rest IH]; intros q; cbn.
  - rewrite app_nil_r; repeat split.
  - destruct (IH (Query_order_by c q)) as (-> & -> & -> & -> & -> & ->).
    cbn; rewrite <- app_assoc; repeat split.
Qed.

Lemma apply_sorts_clauses cfg sq q :
  apply_sorts cfg sq q =
  fold_left (fun q c => Query_order_by c q)
            (omap (sort_clause cfg) (sort_tokens sq)) q.
Proof.
  unfold apply_sorts; generalize (sort_tokens sq) as tokens.
  intros tokens; revert q.
  induction tokens as [| tok rest IH]; intros q; cbn; [reflexivity |].
  unfold sort_step at 2; destruct (sort_clause cfg tok); cbn; apply IH.
Qed.

Lemma sort_clause_resolved cfg tok :
  well_formed cfg -> sort_ok cfg tok ->
  exists column default_direction,
    sort_columns cfg !! SortToken.name tok =
      Some (column, default_direction) /\
    is_column_direction default_direction /\
    ((_get_direction (direction tok) default_direction = Return SORT_ASC /\
      sort_clause cfg tok = Some (asc column)) \/
     (_get_direction (direction tok) default_direction = Return SORT_DESC /\
      sort_clause cfg tok = Some (desc column))).
Proof.
  intros Hwf Hok.
  destruct (sort_ok_lookup _ _ Hok) as [[col dd] Hlook].
  pose proof (Hwf _ _ _ Hlook) as Hdd.
  exists col, dd; repeat split; try assumption.
  unfold sort_clause; rewrite Hlook.
  destruct (get_direction_returns (direction tok) dd Hdd)
    as (d & -> & [-> | ->]); auto.
Qed.

(** C8. When the filter path gets through, the prepared query is
    [finalize_query] applied to the filtered query with one order-by
    clause per sort token appended in listed order: the first token is the
    primary key, each later one breaks the ties left by those before it.
    Each clause is ascending or descending on the token's own column, as
    the token's direction resolves against that column's configured
    default.  The rows a query returns are ordered lexicographically by
    its clauses, so that sort:name sort:date orders by name and breaks
    ties by date. *)
Theorem sort_tokens_in_listed_order cfg q sq filter_query :
  _prepare_db_query cfg q sq true = Return filter_query ->
  let filtered := apply_filters cfg sq q in
  let clauses := omap (sort_clause cfg) (sort_tokens sq) in
  let sorted := fold_left (fun q c => Query_order_by c q) clauses filtered in
  filter_query = finalize_query cfg sorted /\
  q_order_by sorted = q_order_by filtered ++ clauses /\
  (well_formed cfg ->
   Forall2
     (fun tok clause =>
        exists column default_direction,
          sort_columns cfg !! SortToken.name tok =
            Some (column, default_direction) /\
          ((_get_direction (direction tok) default_direction =
              Return SORT_ASC /\ clause = asc column) \/
           (_get_direction (direction tok) default_direction =
              Return SORT_DESC /\ clause = desc column)))
     (sort_tokens sq) clauses) /\
  (forall page page_size,
      StronglySorted (order_le (q_order_by filter_query))
        (Query_all (Query_limit page_size
                      (Query_offset ((page - 1) * page_size)
                         filter_query)))) /\
  (forall (c1 c2 : OrderClause Entity) (a b : Entity),
      order_le [c1; c2] a b <->
      clause_before c1 a b \/
      (clause_tie c1 a b /\ (clause_before c2 a b \/ clause_tie c2 a b))).
Proof.
  intros Hfilter; cbv zeta.
  destruct (prepare_filter_return _ _ _ _ Hfilter) as [-> Hok].
  rewrite apply_sorts_clauses.
  split; [reflexivity |].
  split; [apply order_by_clauses |].
  split; [| split].
  - intros Hwf; clear Hfilter.
    induction Hok as [| tok rest Htok Hrest IH]; cbn; [constructor |].
    destruct (sort_clause_resolved _ _ Hwf Htok)
      as (col & dd & Hlook & _ & [[Hdir Hclause] | [Hdir Hclause]]);
      rewrite Hclause; constructor; eauto 10.
  - intros page page_size.
    apply (Query_all_sorted
             (Query_limit page_size (Query_offset ((page - 1) * page_size) _))).
  - intros c1 c2 a b; apply order_le_two.
Qed.
End Sorting.

(** ** The theorems at the concrete instance *)

Import Posts.


Lemma posts_config_named_keys rows k :
  is_Some (named_filters (posts_config rows) !! k) <->
  k = "tag" \/ k = "user".
Proof.
  cbn; unfold is_Some.
  setoid_rewrite lookup_insert_Some.
  setoid_rewrite lookup_singleton_Some.
  split.
  - intros [f [[<- _] | [_ [<- _]]]]; auto.
  - intros [-> | ->]; eexists; [right | left]; split; try split;
      try reflexivity; discriminate.
Defined.


Lemma execute_page_witness :
  reachable parse (start dataset) /\
  1 <= 2 /\ 1 <= 100 <= 100 /\
  (execute parse executor "" 2 100 (start dataset)).1 =
    Return (Some (count_cell 150), drop 100 dataset) /\
  (length (drop 100 dataset) <= Z.to_nat 100)%nat.
Proof.
  assert (Hexec : (execute parse executor "" 2 100 (start dataset)).1 =
                    Return (Some (count_cell 150), drop 100 dataset))
    by (vm_compute; reflexivity).
  split; [constructor |].
  split; [lia |]; split; [lia |]; split; [exact Hexec |].
  apply (execute_page parse (start dataset) executor "" 2 100
           (Some (count_cell 150)) (drop 100 dataset));
    [constructor | lia | lia | exact Hexec].
Defined.

Lemma execute_twice_witness :
  let w1 := (execute parse executor "tag:ab special:liked" 1 100
               (start small_dataset)).2 in
  let value : Result := (Some (count_cell 2), [(2, 5); (2, 9)]) in
  execute parse executor "tag:ab special:liked" 1 100 (start small_dataset) =
    (Return value, w1) /\
  execute parse executor "tag:ab special:liked" 1 100 w1 = (Return value, w1).
Proof.
  cbv zeta.
  assert (Hexec :
            execute parse executor "tag:ab special:liked" 1 100
              (start small_dataset) =
            (Return (Some (count_cell 2), [(2, 5); (2, 9)]),
             (execute parse executor "tag:ab special:liked" 1 100
                (start small_dataset)).2)).
  { rewrite (surjective_pairing (execute _ _ _ _ _ _)) at 1.
    f_equal; vm_compute; reflexivity. }
  split; [exact Hexec |].
  apply (execute_twice parse (start small_dataset) executor
           "tag:ab special:liked" 1 100), Hexec.
Defined.


Lemma unknown_token_message_witness :
  _prepare_db_query (posts_config small_dataset)
    (session_query small_dataset) (parse "foo:bar") true =
    Raise (SearchError
             (Format "Unknown named token: %r. Available named tokens: %r."
                "foo" ["tag"; "user"])) /\
  StronglySorted string_le ["tag"; "user"].
Proof.
  assert (Hraise :
            _prepare_db_query (posts_config small_dataset)
              (session_query small_dataset) (parse "foo:bar") true =
            Raise (SearchError
                     (Format
                        "Unknown named token: %r. Available named tokens: %r."
                        "foo" ["tag"; "user"]))).
  { apply (proj2 unknown_token_message (posts_config small_dataset)
             (session_query small_dataset) true "bar" false).
    apply posts_config_named_keys. }
  split; [exact Hraise |].
  apply (proj1 unknown_token_message _ _ _ _ _ _ _ Hraise).
Defined.

Lemma sort_tokens_in_listed_order_witness :
  let q := Query_options (lazyload "*") (session_query small_dataset) in
  let filter_query :=
    Query_order_by (desc date_column) (Query_order_by (asc name_column) q) in
  _prepare_db_query (posts_config small_dataset) q
    (parse "sort:name sort:date") true = Return filter_query /\
  q_order_by filter_query = [asc name_column; desc date_column] /\
  Query_all (Query_limit 100 (Query_offset ((1 - 1) * 100) filter_query)) =
    [(1, 8); (1, 3); (2, 9); (2, 5); (3, 0)] /\
  StronglySorted (order_le [asc name_column; desc date_column])
    [(1, 8); (1, 3); (2, 9); (2, 5); (3, 0)].
Proof.
  cbv zeta.
  assert (Hfilter :
            _prepare_db_query (posts_config small_dataset)
              (Query_options (lazyload "*") (session_query small_dataset))
              (parse "sort:name sort:date") true =
            Return (Query_order_by (desc date_column)
                      (Query_order_by (asc name_column)
                         (Query_options (lazyload "*")
                            (session_query small_dataset)))))
    by (vm_compute; reflexivity).
  split; [exact Hfilter |].
  split; [reflexivity |].
  split; [vm_compute; reflexivity |].
  exact (proj1 (proj2 (proj2 (proj2
           (sort_tokens_in_listed_order _ _ _ _ Hfilter)))) 1 100).
Defined.

Lemma cache_key_sharing_witness :
  let w := start small_dataset in
  let w1 := (execute parse executor "" 1 100 w).2 in
  let other := {| config := 8 |} in
  objects w (config executor) = objects w (config other) /\
  config executor <> config other /\
  store w1 !! (config executor, "", 1, 100) =
    Some (Some (count_cell 5), small_dataset) /\
  store w1 !! (config other, "", 1, 100) = None.
Proof.
  cbv zeta.
  assert (Hexec :
            execute parse executor "" 1 100 (start small_dataset) =
            (Return (Some (count_cell 5), small_dataset),
             (execute parse executor "" 1 100 (start small_dataset)).2)).
  { rewrite (surjective_pairing (execute _ _ _ _ _ _)) at 1.
    f_equal; vm_compute; reflexivity. }
  assert (Hne : config executor <> config {| config := 8 |})
    by discriminate.
  pose proof (cache_key_sharing parse (start small_dataset) executor "" 1 100
                {| config := 8 |} "" 1 100 _ _
                (objects (start small_dataset)) Hexec)
    as (_ & _ & _ & Hother).
  pose proof (cache_key_sharing parse (start small_dataset) executor "" 1 100
                executor "" 1 100 _ _
                (objects (start small_dataset)) Hexec)
    as (_ & Hsame & _).
  split; [reflexivity |]; split; [exact Hne |].
  split; [apply Hsame; repeat split | rewrite (Hother Hne); reflexivity].
Defined.

(** C9 as the specification states it fails when an id is given again: the
    config of [start] at id 7 is used and freed, another config, with no
    filter at all, takes its place at id 7, and its executor is served
    the entry of the first, for a query it would itself reject. *)
Lemma cache_key_sharing_counterexample :
  let first := posts_config small_dataset in
  let second := Fixtures.bare_config [] in
  let w1 := (execute parse executor "tag:ab special:liked" 1 100
               (start small_dataset)).2 in
  let w2 := Fixtures.swap_objects second w1 in
  first <> second /\
  objects w1 (config executor) = first /\
  objects w2 (config executor) = second /\
  (execute parse executor "tag:ab special:liked" 1 100
     (Fixtures.swap_objects second (start small_dataset))).1 =
    Raise (SearchError
             (Format "Unknown named token: %r. Available named tokens: %r."
                "tag" [])) /\
  (execute parse executor "tag:ab special:liked" 1 100 w2).1 =
    Return (Some (count_cell 2), [(2, 5); (2, 9)]).
Proof.
  cbv zeta; split; [| repeat split; vm_compute; reflexivity].
  intros Heq.
  apply (f_equal (fun cfg => named_filters cfg !! "tag")) in Heq.
  vm_compute in Heq; discriminate.
Qed.


Lemma failed_execute_not_cached_witness :
  let w := start small_dataset in
  let msg :=
    Format "Unknown named token: %r. Available named tokens: %r." "foo"
           ["tag"; "user"] in
  let w1 := (execute parse executor "foo:bar" 1 100 w).2 in
  execute parse executor "foo:bar" 1 100 w = (Raise (SearchError msg), w1) /\
  store w1 = store w /\
  (execute parse executor "foo:bar" 1 100 w1).1 = Raise (SearchError msg).
Proof.
  cbv zeta.
  assert (Hexec :
            execute parse executor "foo:bar" 1 100 (start small_dataset) =
            (Raise (SearchError
                      (Format
                         "Unknown named token: %r. Available named tokens: %r."
                         "foo" ["tag"; "user"])),
             (execute parse executor "foo:bar" 1 100 (start small_dataset)).2)).
  { rewrite (surjective_pairing (execute _ _ _ _ _ _)) at 1.
    f_equal; vm_compute; reflexivity. }
  destruct (failed_execute_not_cached parse _ _ _ _ _ _ _ Hexec)
    as (Hstore & _ & _ & w2 & Hagain & _).
  split; [exact Hexec |]; split; [exact Hstore |].
  rewrite Hagain; reflexivity.
Defined.

(** ** More on [_get_direction] *)

(** X1. [_get_direction] raises exactly when it is asked to negate a
    configured default that is neither ascending nor descending, and what
    it raises then is the failed assertion. *)
Theorem get_direction_raises_iff direction default_direction e :
  _get_direction direction default_direction = Raise e <->
  e = AssertionError /\ direction = SORT_NEGATED_DEFAULT /\
  ~ is_column_direction default_direction.
Proof.
  unfold is_column_direction; split.
  - destruct direction, default_direction; cbn; intros [= <-];
      repeat split; intros [? | ?]; discriminate.
  - intros (-> & -> & Hnot).
    destruct default_direction; cbn; try reflexivity; exfalso; auto.
Qed.

(** X2. Negating flips a column direction and negating the flipped
    direction gives the first one back; the negated default is never what
    the default itself resolves to. *)
Theorem get_direction_negation_flips default_direction :
  is_column_direction default_direction ->
  exists flipped,
    _get_direction SORT_NEGATED_DEFAULT default_direction = Return flipped /\
    is_column_direction flipped /\
    flipped <> default_direction /\
    _get_direction SORT_NEGATED_DEFAULT flipped = Return default_direction /\
    _get_direction SORT_DEFAULT default_direction <> Return flipped.
Proof.
  intros [-> | ->]; eexists; cbn; (split; [reflexivity |]);
    unfold is_column_direction; repeat split; auto; discriminate.
Qed.

Lemma get_direction_negation_flips_witness :
  is_column_direction SORT_ASC /\
  exists flipped,
    _get_direction SORT_NEGATED_DEFAULT SORT_ASC = Return flipped /\
    is_column_direction flipped /\
    flipped <> SORT_ASC /\
    _get_direction SORT_NEGATED_DEFAULT flipped = Return SORT_ASC /\
    _get_direction SORT_DEFAULT SORT_ASC <> Return flipped.
Proof.
  split; [left; reflexivity |].
  apply (get_direction_negation_flips SORT_ASC); left; reflexivity.
Defined.

(** ** The first offending token *)

Section FirstOffender.
Context {A T : Type}.

(** A loop raises at the first item whose body raises: the items before it
    only thread the accumulator, the items after it are never looked at. *)
Lemma for_each_first (body : A -> T -> Outcome A) (step : A -> T -> A)
      (ok : T -> Prop) before x after e acc :
  (forall acc y, ok y -> body acc y = Return (step acc y)) ->
  (forall acc, body acc x = Raise e) ->
  Forall ok before ->
  for_each body (before ++ x :: after) acc = Raise e.
Proof.
  intros Hok Hraise Hbefore; revert acc.
  induction Hbefore as [| y rest Hy _ IH]; intros acc; cbn.
  - rewrite Hraise; reflexivity.
  - rewrite (Hok _ _ Hy); cbn; apply IH.
Qed.

Lemma for_each_all (body : A -> T -> Outcome A) (step : A -> T -> A)
      (ok : T -> Prop) items acc :
  (forall acc y, ok y -> body acc y = Return (step acc y)) ->
  Forall ok items ->
  for_each body items acc = Return (fold_left step items acc).
Proof.
  intros Hok Hall; revert acc.
  induction Hall as [| y rest Hy _ IH]; intros acc; cbn; [reflexivity |].
  rewrite (Hok _ _ Hy); cbn; apply IH.
Qed.
End FirstOffender.

Section LoopFacts.
Context {Entity : Type}.
Implicit Types (cfg : SearchConfig Entity) (q : Query Entity).
Implicit Types (sq : SearchQuery).

(** [_prepare_db_query] is the four loops in sequence. *)
Lemma prepare_db_query_loops cfg q sq use_sort :
  _prepare_db_query cfg q sq use_sort =
  bindO (anonymous_loop cfg (anonymous_tokens sq) q) (fun q =>
  bindO (named_loop cfg (named_tokens sq) q) (fun q =>
  bindO (special_loop cfg (special_tokens sq) q) (fun q =>
  bindO (if use_sort then sort_loop cfg (sort_tokens sq) q else Return q)
        (fun q => Return (finalize_query cfg q))))).
Proof. reflexivity. Qed.

Lemma anonymous_loop_ok cfg sq q :
  anonymous_ok cfg sq ->
  exists q', anonymous_loop cfg (anonymous_tokens sq) q = Return q'.
Proof.
  unfold anonymous_loop; intros [-> | [f Hf]]; [cbn; eauto |].
  eexists; apply for_each_all with
    (ok := fun _ => True)
    (step := fun q t =>
               f q (AnonymousToken.criterion t) (AnonymousToken.negated t)).
  - intros acc y _; rewrite Hf; reflexivity.
  - apply Forall_true; auto.
Qed.

Lemma named_loop_ok cfg tokens q :
  Forall (named_ok cfg) tokens ->
  exists q', named_loop cfg tokens q = Return q'.
Proof.
  intros Hall; eexists; unfold named_loop.
  apply for_each_all with
    (ok := named_ok cfg)
    (step := fun q t =>
               match named_filters cfg !! NamedToken.name t with
               | Some f => f q (NamedToken.criterion t) (NamedToken.negated t)
               | None => q
               end); [| exact Hall].
  intros acc y [f Hf]; rewrite Hf; reflexivity.
Qed.

Lemma special_loop_ok cfg tokens q :
  Forall (special_ok cfg) tokens ->
  exists q', special_loop cfg tokens q = Return q'.
Proof.
  intros Hall; eexists; unfold special_loop.
  apply for_each_all with
    (ok := special_ok cfg)
    (step := fun q t =>
               match special_filters cfg !! SpecialToken.value t with
               | Some f => f q (SpecialToken.negated t)
               | None => q
               end); [| exact Hall].
  intros acc y [f Hf]; rewrite Hf; reflexivity.
Qed.

(** X3. An anonymous token against a config without an anonymous filter
    is what [_prepare_db_query] reports, on both paths, whatever else is
    wrong with the query: the anonymous tokens are checked first. *)
Theorem anonymous_error_first cfg q sq use_sort :
  anonymous_tokens sq <> [] ->
  anonymous_filter cfg = None ->
  _prepare_db_query cfg q sq use_sort =
    Raise (SearchError
             (Plain "Anonymous tokens are not valid in this context.")).
Proof.
  intros Hne Hnone; rewrite prepare_db_query_loops; unfold anonymous_loop.
  destruct (anonymous_tokens sq) as [| tok rest]; [congruence |].
  cbn; rewrite Hnone; reflexivity.
Qed.

(** X4. When the anonymous tokens pass, the unknown named token that is
    reported is the first one in the query: the named tokens before it
    have handlers, those after it are not looked at, and neither are the
    special and sort tokens. *)
Theorem named_error_first cfg q sq use_sort before tok after :
  anonymous_ok cfg sq ->
  named_tokens sq = before ++ tok :: after ->
  Forall (named_ok cfg) before ->
  named_filters cfg !! NamedToken.name tok = None ->
  _prepare_db_query cfg q sq use_sort =
    Raise (SearchError
             (Format "Unknown named token: %r. Available named tokens: %r."
                (NamedToken.name tok)
                (_format_dict_keys (named_filters cfg)))).
Proof.
  intros Hanon Htokens Hbefore Hnone; rewrite prepare_db_query_loops.
  destruct (anonymous_loop_ok cfg sq q Hanon) as [q1 ->]; cbn [bindO].
  rewrite Htokens; unfold named_loop.
  erewrite for_each_first with
    (ok := named_ok cfg)
    (step := fun q t =>
               match named_filters cfg !! NamedToken.name t with
               | Some f => f q (NamedToken.criterion t) (NamedToken.negated t)
               | None => q
               end); [reflexivity | | | exact Hbefore].
  - intros acc y [f Hf]; rewrite Hf; reflexivity.
  - intros acc; cbv beta; rewrite Hnone; reflexivity.
Qed.

(** X5. When the anonymous and named tokens pass, the unknown special
    token that is reported is the first one in the query, on both
    paths. *)
Theorem special_error_first cfg q sq use_sort before tok after :
  anonymous_ok cfg sq ->
  Forall (named_ok cfg) (named_tokens sq) ->
  special_tokens sq = before ++ tok :: after ->
  Forall (special_ok cfg) before ->
  special_filters cfg !! SpecialToken.value tok = None ->
  _prepare_db_query cfg q sq use_sort =
    Raise (SearchError
             (Format
                "Unknown special token: %r. Available special tokens: %r."
                (SpecialToken.value tok)
                (_format_dict_keys (special_filters cfg)))).
Proof.
  intros Hanon Hnamed Htokens Hbefore Hnone; rewrite prepare_db_query_loops.
  destruct (anonymous_loop_ok cfg sq q Hanon) as [q1 ->]; cbn [bindO].
  destruct (named_loop_ok cfg _ q1 Hnamed) as [q2 ->]; cbn [bindO].
  rewrite Htokens; unfold special_loop.
  erewrite for_each_first with
    (ok := special_ok cfg)
    (step := fun q t =>
               match special_filters cfg !! SpecialToken.value t with
               | Some f => f q (SpecialToken.negated t)
               | None => q
               end); [reflexivity | | | exact Hbefore].
  - intros acc y [f Hf]; rewrite Hf; reflexivity.
  - intros acc; cbv beta; rewrite Hnone; reflexivity.
Qed.

(** X6. When every filter token has a handler, the filter path fails at
    the first sort token that does not get through, with a SearchError if
    its name is unknown and with the failed assertion if its column is
    known but its direction cannot be resolved; sort tokens after it are
    not looked at, so a failed assertion hides an unknown name further
    on.  The count path is not affected. *)
Theorem sort_error_first cfg q sq before tok after :
  filters_resolve cfg sq ->
  sort_tokens sq = before ++ tok :: after ->
  Forall (sort_ok cfg) before ->
  ~ sort_ok cfg tok ->
  _prepare_db_query cfg q sq true = Raise (sort_error cfg tok) /\
  (sort_error cfg tok = AssertionError <->
   is_Some (sort_columns cfg !! SortToken.name tok)) /\
  _prepare_db_query cfg q sq false =
    Return (finalize_query cfg (apply_filters cfg sq q)).
Proof.
  intros Hres Htokens Hbefore Hbad.
  pose proof Hres as (Hanon & Hnamed & Hspecial).
  split; [| split].
  - rewrite prepare_db_query_loops.
    destruct (anonymous_loop_ok cfg sq q Hanon) as [q1 ->]; cbn [bindO].
    destruct (named_loop_ok cfg _ q1 Hnamed) as [q2 ->]; cbn [bindO].
    destruct (special_loop_ok cfg _ q2 Hspecial) as [q3 ->]; cbn [bindO].
    rewrite Htokens; unfold sort_loop.
    erewrite for_each_first with (ok := sort_ok cfg) (step := sort_step cfg);
      [reflexivity | | | exact Hbefore].
    + intros acc y Hy; apply sort_body_ok, Hy.
    + intros acc; apply sort_body_bad, Hbad.
  - unfold sort_error.
    destruct (sort_columns cfg !! SortToken.name tok); split; eauto;
      try discriminate.
    intros [? ?]; discriminate.
  - destruct (prepare_db_query_cases cfg q sq false)
      as [(_ & _ & Heq) | [(Hne & Hnone & _) | [(t1 & Hin & Hnone & _)
         | [(t1 & Hin & Hnone & _) | (Hfalse & _)]]]].
    + exact Heq.
    + destruct Hanon as [? | [f Hf]]; congruence.
    + rewrite Forall_forall in Hnamed.
      destruct (Hnamed _ Hin); congruence.
    + rewrite Forall_forall in Hspecial.
      destruct (Hspecial _ Hin); congruence.
    + discriminate.
Qed.

(** X7. A sort token with the default direction on a column whose
    configured default is itself not a column direction adds no ordering
    and raises nothing: when all sort tokens are of that kind the filter
    path prepares exactly the query of the count path. *)
Theorem unresolvable_default_ignored cfg q sq :
  Forall
    (fun tok =>
       direction tok = SORT_DEFAULT /\
       exists column default_direction,
         sort_columns cfg !! SortToken.name tok =
           Some (column, default_direction) /\
         ~ is_column_direction default_direction)
    (sort_tokens sq) ->
  _prepare_db_query cfg q sq true = _prepare_db_query cfg q sq false.
Proof.
  intros Hall; rewrite !prepare_db_query_loops.
  destruct (anonymous_loop cfg _ q) as [q1 |]; cbn [bindO]; [| reflexivity].
  destruct (named_loop cfg _ q1) as [q2 |]; cbn [bindO]; [| reflexivity].
  destruct (special_loop cfg _ q2) as [q3 |]; cbn [bindO]; [| reflexivity].
  unfold sort_loop.
  erewrite for_each_all with (step := fun q _ => q); [| | exact Hall].
  - cbn [bindO]; do 2 f_equal.
    generalize (sort_tokens sq); intros l; induction l; cbn; auto.
  - intros acc y (Hdir & col & dd & Hlook & Hnot); cbv beta.
    rewrite Hlook, Hdir; unfold is_column_direction in Hnot.
    destruct dd; cbn; try reflexivity; exfalso; auto.
Qed.
End LoopFacts.

(** ** More on [_format_dict_keys] *)

(** X8. The listing depends on the keys of the dict alone: two dicts with
    the same keys, whatever their values, are listed alike. *)
Theorem format_dict_keys_key_set {V1 V2} (source1 : gmap string V1)
        (source2 : gmap string V2) :
  (forall k, is_Some (source1 !! k) <-> is_Some (source2 !! k)) ->
  _format_dict_keys source1 = _format_dict_keys source2.
Proof.
  intros Hkeys.
  destruct (format_dict_keys_spec source2) as (Hsorted & Hnodup & Hmem).
  apply format_dict_keys_unique;
    [apply StronglySorted_Sorted, Hsorted | exact Hnodup |].
  intros k; rewrite Hmem, Hkeys; reflexivity.
Qed.

(** ** More on [execute] *)

Section ExecuteFacts.
Context {Entity : Type}.
Variable parse : string -> SearchQuery.
Implicit Types (w : World (Entity := Entity)) (self : Executor).
Implicit Types (cfg : SearchConfig Entity) (q : Query Entity).

Lemma prepare_assertion cfg q sq use_sort :
  _prepare_db_query cfg q sq use_sort = Raise AssertionError ->
  exists tok column default_direction,
    tok ∈ sort_tokens sq /\
    direction tok = SORT_NEGATED_DEFAULT /\
    sort_columns cfg !! SortToken.name tok =
      Some (column, default_direction) /\
    ~ is_column_direction default_direction.
Proof.
  intros Hraise.
  destruct (prepare_db_query_cases cfg q sq use_sort)
    as [(_ & _ & Heq) | [(_ & _ & Heq) | [(tok & _ & _ & Heq)
       | [(tok & _ & _ & Heq) | (_ & tok & Hin & Hbad & Heq)]]]];
    rewrite Heq in Hraise; try discriminate.
  unfold sort_error in Hraise; unfold sort_ok in Hbad.
  destruct (sort_columns cfg !! SortToken.name tok) as [[col dd] |] eqn:Hlook;
    [| discriminate].
  exists tok, col, dd; split; [exact Hin |].
  unfold is_column_direction.
  destruct (direction tok), dd; cbn in Hbad; try (exfalso; exact (Hbad I));
    (split; [reflexivity |]; split; [exact Hlook |]);
    intros [? | ?]; discriminate.
Qed.

(** What a returned pair leaves in the cache. *)
Lemma execute_return_stored w self query_text page page_size value w1 :
  execute parse self query_text page page_size w = (Return value, w1) ->
  store w1 !! (config self, query_text, page, page_size) = Some value.
Proof.
  intros Hexec.
  destruct (store w !! (config self, query_text, page, page_size))
    as [cached |] eqn:Hkey.
  - rewrite (execute_hit parse _ _ _ _ _ _ Hkey) in Hexec.
    injection Hexec as -> ->; exact Hkey.
  - rewrite (execute_miss parse _ _ _ _ _ Hkey) in Hexec; cbv zeta in Hexec.
    destruct (_prepare_db_query _ _ _ true) as [fq | e]; [| discriminate].
    destruct (_prepare_db_query _ _ _ false) as [cq | e]; [| discriminate].
    injection Hexec as <- <-; cbn [store]; apply lookup_insert_eq.
Qed.

(** X9. A cached result outlives its config: once a call returned, the
    same call returns the same pair without parsing, validating or
    querying, whatever the config objects and their datasets have become
    in the meantime. *)
Theorem cached_result_survives w self query_text page page_size value w1
        objs :
  execute parse self query_text page page_size w = (Return value, w1) ->
  let w2 := {| objects := objs; store := store w1; trace := trace w1 |} in
  execute parse self query_text page page_size w2 = (Return value, w2).
Proof.
  intros Hexec w2; apply execute_hit; cbn [store].
  exact (execute_return_stored _ _ _ _ _ _ _ Hexec).
Qed.

(** X10. [execute] never drops or overwrites a cache entry, touches no
    key but its own and leaves the config objects alone. *)
Theorem execute_keeps_entries w self query_text page page_size :
  let w1 := (execute parse self query_text page page_size w).2 in
  objects w1 = objects w /\
  (forall key value, store w !! key = Some value ->
                     store w1 !! key = Some value) /\
  (forall key, key <> (config self, query_text, page, page_size) ->
               store w1 !! key = store w !! key).
Proof.
  cbv zeta; split; [apply execute_objects |].
  destruct (store w !! (config self, query_text, page, page_size))
    as [cached |] eqn:Hkey.
  - rewrite (execute_hit parse _ _ _ _ _ _ Hkey); cbn; auto.
  - rewrite (execute_miss parse _ _ _ _ _ Hkey); cbv zeta.
    destruct (_prepare_db_query _ _ _ true) as [fq | e]; cbn; [| auto].
    destruct (_prepare_db_query _ _ _ false) as [cq | e]; cbn; [| auto].
    split.
    + intros key value Hsome; rewrite lookup_insert_ne; [exact Hsome |].
      intros <-; congruence.
    + intros key Hne; apply lookup_insert_ne; congruence.
Qed.

(** X11. An AssertionError raised by [execute] is the failed assertion of
    [_get_direction], met while the filter path validates the sort
    tokens: the query then asks to negate the default of a sort column
    whose configured default is neither ascending nor descending, so a
    config whose defaults are all column directions never meets it.
    Only the parser and the filter-path validation were called, no
    backing query ran and the cache is as it was. *)
Theorem execute_assertion_error w self query_text page page_size w1 :
  execute parse self query_text page page_size w =
    (Raise AssertionError, w1) ->
  (exists tok column default_direction,
      tok ∈ sort_tokens (parse query_text) /\
      direction tok = SORT_NEGATED_DEFAULT /\
      sort_columns (objects w (config self)) !! SortToken.name tok =
        Some (column, default_direction) /\
      ~ is_column_direction default_direction) /\
  ~ well_formed (objects w (config self)) /\
  store w1 = store w /\
  trace w1 = trace w ++ [call_parse query_text; call_prepare_db_query true].
Proof.
  intros Hexec.
  destruct (store w !! (config self, query_text, page, page_size))
    as [cached |] eqn:Hkey.
  { rewrite (execute_hit parse _ _ _ _ _ _ Hkey) in Hexec; discriminate. }
  rewrite (execute_miss parse _ _ _ _ _ Hkey) in Hexec; cbv zeta in Hexec.
  destruct (_prepare_db_query _ _ _ true) as [fq | e'] eqn:Hfilter.
  { rewrite (prepare_count_after_filter _ _ _ _ _ Hfilter) in Hexec.
    discriminate. }
  injection Hexec as -> <-; cbn [store trace].
  pose proof (prepare_assertion _ _ _ _ Hfilter)
    as (tok & col & dd & Hin & Hdir & Hlook & Hnot).
  split; [eauto 10 |]; split; [| split; reflexivity].
  intros Hwf; apply Hnot; eapply Hwf; exact Hlook.
Qed.
End ExecuteFacts.

(** ** Pages *)

Section PageFacts.
Context {Entity : Type}.
Variable parse : string -> SearchQuery.
Implicit Types (w : World (Entity := Entity)) (self : Executor).
Implicit Types (cfg : SearchConfig Entity) (q : Query Entity).

Lemma insert_row_Permutation (clauses : list (OrderClause Entity)) x rows :
  insert_row clauses x rows ≡ₚ x :: rows.
Proof.
  induction rows as [| y rest IH]; cbn; [reflexivity |].
  destruct (order_leb clauses x y); [reflexivity |].
  rewrite IH; apply Permutation_swap.
Qed.

(** Ordering only reorders. *)
Lemma sort_rows_Permutation (clauses : list (OrderClause Entity)) rows :
  sort_rows clauses rows ≡ₚ rows.
Proof.
  induction rows as [| x rest IH]; cbn; [reflexivity |].
  rewrite insert_row_Permutation; fold (sort_rows clauses rest).
  rewrite IH; reflexivity.
Qed.

Lemma matching_rows_elem q e :
  e ∈ matching_rows q <-> e ∈ q_from q /\ matches (q_where q) e = true.
Proof.
  unfold matching_rows; rewrite sort_rows_Permutation.
  rewrite !list_elem_of_In, filter_In; reflexivity.
Qed.

(** The filter query of a call, which depends on neither page nor
    page_size. *)
Lemma execute_miss_return w self query_text page page_size count entities :
  store w !! (config self, query_text, page, page_size) = None ->
  (execute parse self query_text page page_size w).1 =
    Return (count, entities) ->
  let cfg := objects w (config self) in
  let sq := parse query_text in
  let filter_query :=
    finalize_query cfg
      (apply_sorts cfg sq
         (apply_filters cfg sq
            (Query_options (lazyload "*") (create_filter_query cfg)))) in
  let count_query :=
    finalize_query cfg
      (apply_filters cfg sq
         (Query_options (lazyload "*") (create_count_query cfg))) in
  entities =
    take (Z.to_nat page_size)
         (drop (Z.to_nat ((page - 1) * page_size))
               (matching_rows filter_query)) /\
  count =
    scalar (session_execute
              (order_by_None
                 (with_only_columns func_count (statement count_query)))) /\
  (execute parse self query_text page page_size w).2 =
    {| objects := objects w;
       store := <[(config self, query_text, page, page_size) :=
                    (count, entities)]> (store w);
       trace := trace w ++ [call_parse query_text;
                            call_prepare_db_query true; call_all;
                            call_prepare_db_query false;
                            call_session_execute;
                            call_cache_put
                              (config self, query_text, page, page_size)] |}.
Proof.
  intros Hkey Hexec; cbv zeta.
  rewrite (execute_miss parse _ _ _ _ _ Hkey) in Hexec |- *;
    cbv zeta in Hexec |- *.
  destruct (_prepare_db_query _ _ _ true) as [fq | e] eqn:Hfilter;
    [| discriminate].
  rewrite (prepare_count_after_filter _ _
             (Query_options (lazyload "*")
                (create_count_query (objects w (config self))))
             _ _ Hfilter) in Hexec |- *.
  destruct (prepare_filter_return _ _ _ _ Hfilter) as [-> _].
  injection Hexec as <- <-; repeat split.
Qed.

(** X12. For [page >= 1] and [page_size >= 0], on a cache miss the
    entities returned are the slice of the ordered matching rows that
    starts at (page-1)*page_size and is page_size long.  A page that starts at or beyond the end is empty, not
    an error, and a first page that is large enough holds every matching
    row. *)
Theorem execute_page_slice w self query_text page page_size count entities :
  1 <= page -> 0 <= page_size ->
  store w !! (config self, query_text, page, page_size) = None ->
  (execute parse self query_text page page_size w).1 =
    Return (count, entities) ->
  let cfg := objects w (config self) in
  let sq := parse query_text in
  let rows :=
    matching_rows
      (finalize_query cfg
         (apply_sorts cfg sq
            (apply_filters cfg sq
               (Query_options (lazyload "*") (create_filter_query cfg))))) in
  entities =
    take (Z.to_nat page_size)
         (drop (Z.to_nat ((page - 1) * page_size)) rows) /\
  (Z.of_nat (length rows) <= (page - 1) * page_size -> entities = []) /\
  (page = 1 -> Z.of_nat (length rows) <= page_size -> entities = rows).
Proof.
  intros Hpage Hsize Hkey Hexec; cbv zeta.
  destruct (execute_miss_return _ _ _ _ _ _ _ Hkey Hexec) as (-> & _ & _).
  split; [reflexivity |]; split.
  - intros Hend; rewrite drop_ge by lia; apply take_nil.
  - intros -> Hall; change (Z.to_nat ((1 - 1) * page_size)) with 0%nat.
    rewrite drop_0; apply take_ge; lia.
Qed.

(** X13. Two consecutive pages fetched one after the other, both on a
    cache miss, are adjacent slices of the same ordered rows: together
    they are the 2*page_size rows that start at (page-1)*page_size, with
    no row skipped or repeated at the seam, and both calls return the same
    count. *)
Theorem execute_consecutive_pages w self query_text page page_size
        count1 entities1 count2 entities2 :
  1 <= page -> 0 <= page_size ->
  store w !! (config self, query_text, page, page_size) = None ->
  store w !! (config self, query_text, page + 1, page_size) = None ->
  (execute parse self query_text page page_size w).1 =
    Return (count1, entities1) ->
  (execute parse self query_text (page + 1) page_size
     (execute parse self query_text page page_size w).2).1 =
    Return (count2, entities2) ->
  let cfg := objects w (config self) in
  let sq := parse query_text in
  let rows :=
    matching_rows
      (finalize_query cfg
         (apply_sorts cfg sq
            (apply_filters cfg sq
               (Query_options (lazyload "*") (create_filter_query cfg))))) in
  entities1 ++ entities2 =
    take (Z.to_nat (2 * page_size))
         (drop (Z.to_nat ((page - 1) * page_size)) rows) /\
  count1 = count2.
Proof.
  intros Hpage Hsize Hkey1 Hkey2 Hexec1 Hexec2; cbv zeta.
  destruct (execute_miss_return _ _ _ _ _ _ _ Hkey1 Hexec1)
    as (-> & -> & Hw1).
  assert (Hkey2' :
            store (execute parse self query_text page page_size w).2
              !! (config self, query_text, page + 1, page_size) = None).
  { rewrite Hw1; cbn [store].
    rewrite lookup_insert_ne; [exact Hkey2 |].
    intros [= Heq]; lia. }
  destruct (execute_miss_return _ _ _ _ _ _ _ Hkey2' Hexec2)
    as (-> & -> & _).
  rewrite execute_objects; split; [| reflexivity].
  replace (Z.to_nat ((page + 1 - 1) * page_size))
    with (Z.to_nat ((page - 1) * page_size) + Z.to_nat page_size)%nat by nia.
  rewrite <- drop_drop, take_take_drop; f_equal; lia.
Qed.

(** X14. On a cache miss every entity returned is a row of the filter
    query's source that satisfies all the predicates the filters and
    [finalize_query] put on it. *)
Theorem execute_entities_match w self query_text page page_size count
        entities e :
  store w !! (config self, query_text, page, page_size) = None ->
  (execute parse self query_text page page_size w).1 =
    Return (count, entities) ->
  e ∈ entities ->
  let cfg := objects w (config self) in
  let sq := parse query_text in
  let filter_query :=
    finalize_query cfg
      (apply_sorts cfg sq
         (apply_filters cfg sq
            (Query_options (lazyload "*") (create_filter_query cfg)))) in
  e ∈ q_from filter_query /\ matches (q_where filter_query) e = true.
Proof.
  intros Hkey Hexec Hin; cbv zeta.
  destruct (execute_miss_return _ _ _ _ _ _ _ Hkey Hexec) as (-> & _ & _).
  apply matching_rows_elem.
  eapply subseteq_drop, subseteq_take, Hin.
Qed.

(** X15. For a config whose two factories return the same query and whose
    [finalize_query] changes nothing, and filters that set no offset or
    limit, the count returned on a cache miss is the number of rows the
    pages are slices of: sort tokens change the order of those rows and
    nothing else, and no page holds more entities than the count. *)
Theorem execute_count_matches_pages w self query_text page page_size count
        entities :
  store w !! (config self, query_text, page, page_size) = None ->
  (execute parse self query_text page page_size w).1 =
    Return (count, entities) ->
  let cfg := objects w (config self) in
  let sq := parse query_text in
  let filtered :=
    apply_filters cfg sq
      (Query_options (lazyload "*") (create_count_query cfg)) in
  create_filter_query cfg = create_count_query cfg ->
  (forall q, finalize_query cfg q = q) ->
  q_offset filtered = None -> q_limit filtered = None ->
  let rows := matching_rows (apply_sorts cfg sq filtered) in
  rows ≡ₚ List.filter (matches (q_where filtered)) (q_from filtered) /\
  count = Some (count_cell (Z.of_nat (length rows))) /\
  (length entities <= length rows)%nat.
Proof.
  intros Hkey Hexec; cbv zeta; intros Hsame Hfin Hoff Hlim.
  destruct (execute_miss_return _ _ _ _ _ _ _ Hkey Hexec) as (-> & -> & _).
  rewrite !Hfin, Hsame.
  set (filtered := apply_filters _ _ _) in *.
  destruct (order_by_clauses
              (omap (sort_clause (objects w (config self)))
                    (sort_tokens (parse query_text))) filtered)
    as (_ & Hfrom & Hwhere & _).
  cbv zeta in Hfrom, Hwhere; rewrite <- apply_sorts_clauses in Hfrom, Hwhere.
  assert (Hperm : matching_rows
                    (apply_sorts (objects w (config self))
                       (parse query_text) filtered)
                  ≡ₚ List.filter (matches (q_where filtered))
                                 (q_from filtered)).
  { unfold matching_rows; rewrite sort_rows_Permutation, Hfrom, Hwhere.
    reflexivity. }
  split; [exact Hperm |]; split.
  - unfold session_execute, scalar; cbn; rewrite Hoff, Hlim; cbn.
    rewrite Hperm; reflexivity.
  - rewrite length_take, length_drop; lia.
Qed.
End PageFacts.

(** ** [execute_and_serialize] *)

Section SerializeFacts.
Context {Entity Repr CtxError SerError : Type}.
Variable parse : string -> SearchQuery.
Implicit Types (w : World (Entity := Entity)) (self : Executor).
Implicit Types (ctx : RequestContext (CtxError := CtxError)).
Implicit Types (serializer : Entity -> SerError + Repr).

Lemma execute_length_bound w self query_text page page_size count entities :
  store_ok parse w ->
  (execute parse self query_text page page_size w).1 =
    Return (count, entities) ->
  (length entities <= Z.to_nat page_size)%nat.
Proof.
  intros Hok Hexec.
  destruct (store w !! (config self, query_text, page, page_size))
    as [cached |] eqn:Hkey.
  - rewrite (execute_hit parse _ _ _ _ _ _ Hkey) in Hexec.
    injection Hexec as ->; eapply Hok; exact Hkey.
  - rewrite (execute_miss parse _ _ _ _ _ Hkey) in Hexec; cbv zeta in Hexec.
    destruct (_prepare_db_query _ _ _ true) as [fq | e]; [| discriminate].
    destruct (_prepare_db_query _ _ _ false) as [cq | e]; [| discriminate].
    injection Hexec as <- <-; apply window_limit_length.
Qed.

Lemma execute_raise_store w self query_text page page_size e :
  (execute parse self query_text page page_size w).1 = Raise e ->
  store (execute parse self query_text page page_size w).2 = store w.
Proof.
  destruct (store w !! (config self, query_text, page, page_size))
    as [cached |] eqn:Hkey.
  - rewrite (execute_hit parse _ _ _ _ _ _ Hkey); reflexivity.
  - rewrite (execute_miss parse _ _ _ _ _ Hkey); cbv zeta.
    destruct (_prepare_db_query _ _ _ true) as [fq | e1]; [| reflexivity].
    destruct (_prepare_db_query _ _ _ false) as [cq | e2];
      [discriminate | reflexivity].
Qed.

Lemma serialize_all_inr (serializer : Entity -> SerError + Repr) entities
      reprs :
  serialize_all serializer entities = inr reprs <->
  Forall2 (fun entity repr => serializer entity = inr repr) entities reprs.
Proof.
  revert reprs; induction entities as [| x rest IH]; intros reprs; cbn.
  - split; [intros [= <-]; constructor | intros H; inversion H; reflexivity].
  - destruct (serializer x) as [e | r] eqn:Hx.
    + split; [discriminate | intros H; inversion H; congruence].
    + destruct (serialize_all serializer rest) as [e | rs] eqn:Hrest.
      * split; [discriminate |].
        intros H; inversion H as [| ? r' ? rs' _ Hrs]; subst.
        apply IH in Hrs; discriminate.
      * split.
        -- intros [= <-]; constructor; [exact Hx | apply IH; reflexivity].
        -- intros H; inversion H as [| ? r' ? rs' Hr Hrs]; subst.
           apply IH in Hrs; congruence.
Qed.

Lemma serialize_all_inl (serializer : Entity -> SerError + Repr) entities e :
  serialize_all serializer entities = inl e ->
  exists before entity after,
    entities = before ++ entity :: after /\
    Forall (fun x => exists repr, serializer x = inr repr) before /\
    serializer entity = inl e.
Proof.
  induction entities as [| x rest IH]; cbn; [discriminate |].
  destruct (serializer x) as [e' | r] eqn:Hx.
  - intros [= <-]; exists [], x, rest; repeat split; [constructor | exact Hx].
  - destruct (serialize_all serializer rest) as [e' | rs]; [| discriminate].
    intros [= <-].
    destruct (IH eq_refl) as (before & entity & after & -> & Hbefore & Hbad).
    exists (x :: before), entity, after; repeat split; [| exact Hbad].
    constructor; eauto.
Qed.

(** X16. The dict returned by [execute_and_serialize] echoes the three
    parameters read from the context ([page] with default 1 and minimum 1,
    [pageSize] with default 100 and bounds 1 and 100), carries as [total]
    the count of [execute] called with them, and as [results] the
    serialised entities of that call, one per entity and in their order.
    In a world reached by calls to [execute] there are never more results
    than [pageSize]. *)
Theorem serialize_envelope w self ctx serializer env w1 :
  reachable parse w ->
  execute_and_serialize parse self ctx serializer w = (ApiReturn env, w1) ->
  get_param_as_string ctx "query" = inr (Envelope.query env) /\
  get_param_as_int ctx "page" (Some 1) (Some 1) None =
    inr (Envelope.page env) /\
  get_param_as_int ctx "pageSize" (Some 100) (Some 1) (Some 100) =
    inr (Envelope.pageSize env) /\
  exists entities,
    execute parse self (Envelope.query env) (Envelope.page env)
            (Envelope.pageSize env) w =
      (Return (Envelope.total env, entities), w1) /\
    Forall2 (fun entity repr => serializer entity = inr repr)
            entities (Envelope.results env) /\
    (forall f : Entity -> Repr,
        (forall entity, serializer entity = inr (f entity)) ->
        Envelope.results env = f <$> entities) /\
    length (Envelope.results env) = length entities /\
    (length (Envelope.results env) <= Z.to_nat (Envelope.pageSize env))%nat.
Proof.
  intros Hreach; unfold execute_and_serialize.
  destruct (get_param_as_string ctx "query") as [e | query];
    [discriminate |].
  destruct (get_param_as_int ctx "page" _ _ _) as [e | page];
    [discriminate |].
  destruct (get_param_as_int ctx "pageSize" _ _ _) as [e | page_size];
    [discriminate |].
  destruct (execute parse self query page page_size w)
    as [[[count entities] | e] w'] eqn:Hexec; [| discriminate].
  destruct (serialize_all serializer entities) as [e | results] eqn:Hser;
    [discriminate |].
  intros [= <- <-].
  cbn [Envelope.query Envelope.page Envelope.pageSize Envelope.total
       Envelope.results].
  apply serialize_all_inr in Hser.
  assert (Hlen : length results = length entities)
    by (symmetry; eapply Forall2_length, Hser).
  repeat split; exists entities; repeat split.
  - exact Hexec.
  - exact Hser.
  - intros f Hf; clear Hlen Hexec.
    induction Hser as [| x r xs rs Hx _ IH]; cbn; [reflexivity |].
    rewrite Hf in Hx; injection Hx as <-; f_equal; exact IH.
  - exact Hlen.
  - rewrite Hlen.
    apply (execute_length_bound w self query page page_size count);
      [apply reachable_store_ok, Hreach | rewrite Hexec; reflexivity].
Qed.

(** X17. How [execute_and_serialize] fails.  When the context rejects a
    parameter nothing at all has happened: the query was not parsed and
    the cache not consulted.  When [execute] raises, its exception comes
    out unchanged and the cache is as it was.  When the serializer raises
    on an entity, the entities before it serialised and [execute] has
    already returned: its pair is in the cache, and the same call made
    again is served from the cache and fails in the same way. *)
Theorem serialize_failure w self ctx serializer w1 :
  (forall e,
      execute_and_serialize parse self ctx serializer w =
        (ApiCtxRaise e, w1) ->
      w1 = w) /\
  (forall e,
      execute_and_serialize parse self ctx serializer w = (ApiRaise e, w1) ->
      store w1 = store w /\
      exists query page page_size,
        get_param_as_string ctx "query" = inr query /\
        execute parse self query page page_size w = (Raise e, w1)) /\
  (forall e,
      execute_and_serialize parse self ctx serializer w =
        (ApiSerializerRaise e, w1) ->
      exists query page page_size count entities before entity after,
        execute parse self query page page_size w =
          (Return (count, entities), w1) /\
        store w1 !! (config self, query, page, page_size) =
          Some (count, entities) /\
        entities = before ++ entity :: after /\
        Forall (fun x => exists repr, serializer x = inr repr) before /\
        serializer entity = inl e /\
        execute_and_serialize parse self ctx serializer w1 =
          (ApiSerializerRaise e, w1)).
Proof.
  unfold execute_and_serialize.
  destruct (get_param_as_string ctx "query") as [e0 | query];
    [(split; [| split]); intros e [= ]; subst; auto |].
  destruct (get_param_as_int ctx "page" _ _ _) as [e0 | page];
    [(split; [| split]); intros e [= ]; subst; auto |].
  destruct (get_param_as_int ctx "pageSize" _ _ _) as [e0 | page_size];
    [(split; [| split]); intros e [= ]; subst; auto |].
  destruct (execute parse self query page page_size w)
    as [[[count entities] | e0] w'] eqn:Hexec.
  - destruct (serialize_all serializer entities) as [e0 | results] eqn:Hser;
      (split; [| split]); intros e [= ]; subst.
    destruct (serialize_all_inl _ _ _ Hser)
      as (before & entity & after & Hsplit & Hbefore & Hbad).
    pose proof (execute_return_stored parse _ _ _ _ _ _ _ Hexec) as Hstored.
    exists query, page, page_size, count, entities, before, entity, after.
    repeat split; try assumption.
    rewrite (execute_hit parse _ _ _ _ _ _ Hstored), Hser; reflexivity.
  - (split; [| split]); intros e [= ]; subst.
    split; [| eauto 10].
    pose proof (execute_raise_store w self query page page_size e) as Hstore.
    rewrite Hexec in Hstore; apply Hstore; reflexivity.
Qed.
End SerializeFacts.

(** ** The error handlers *)

Section HandlerFacts.
Import App.
Context {Request Response Params : Type}.
Variable str : Error -> string.
Implicit Types (handler : Handler (Request := Request) (Response := Response)
                                  (Params := Params)).

Ltac each_handler H :=
  repeat (apply elem_of_cons in H as [H | H];
          [injection H as -> -> |]);
  [.. | apply elem_of_nil in H; destruct H].

(** X18. Every registered handler ends by raising, never by returning.
    All of them raise an HTTP error whose description is [str(ex)], but
    the integrity handler, which takes [ex.args[0]]: on an exception
    without arguments it raises an IndexError where an HTTP error was
    meant, and it is the only one that can. *)
Theorem handlers_always_raise cls handler ex request response params :
  (cls, handler) ∈ error_handlers str ->
  handler ex request response params <> returned /\
  (handler ex request response params = raised_IndexError <->
   cls = IntegrityError /\ args ex = []) /\
  (forall e, handler ex request response params = raised e ->
             (cls = IntegrityError ->
              head (args ex) = Some (description e)) /\
             (cls <> IntegrityError -> description e = str ex)).
Proof.
  intros Hin; unfold error_handlers in Hin; each_handler Hin;
    unfold _on_auth_error, _on_integrity_error, _on_validation_error,
      _on_search_error, _on_not_found_error, _on_processing_error;
    (split; [| split]); try discriminate;
    try (split; [discriminate | intros [[= ] _]]);
    try (intros e [= <-]; split; [discriminate | reflexivity]).
  - destruct (args ex); discriminate.
  - destruct (args ex); split; try discriminate; auto.
    intros [_ [= ]].
  - intros e; destruct (args ex); intros [= <-].
    split; [reflexivity | congruence].
Qed.

(** X19. The title of the HTTP error tells which class of exception was
    handled, also among the three classes that end as a bad request: no
    two registered handlers raise errors with the same title. *)
Theorem handler_title_identifies_class cls1 handler1 cls2 handler2
        ex1 ex2 request response params e1 e2 :
  (cls1, handler1) ∈ error_handlers str ->
  (cls2, handler2) ∈ error_handlers str ->
  handler1 ex1 request response params = raised e1 ->
  handler2 ex2 request response params = raised e2 ->
  title e1 = title e2 ->
  cls1 = cls2.
Proof.
  intros Hin1 Hin2; unfold error_handlers in Hin1, Hin2.
  each_handler Hin1; each_handler Hin2;
    unfold _on_auth_error, _on_integrity_error, _on_validation_error,
      _on_search_error, _on_not_found_error, _on_processing_error;
    try reflexivity;
    try destruct (args ex1); try destruct (args ex2);
    intros [= <-] [= <-]; cbn; try discriminate; reflexivity.
Qed.
End HandlerFacts.

(** ** The cache over a run *)

Section CacheFacts.
Context {Entity : Type}.
Variable parse : string -> SearchQuery.
Implicit Types (w : World (Entity := Entity)) (self : Executor).

(** On a miss the outcome depends on the config objects and the
    arguments alone. *)
Lemma execute_miss_outcome w w' self query_text page page_size :
  objects w' = objects w ->
  store w !! (config self, query_text, page, page_size) = None ->
  store w' !! (config self, query_text, page, page_size) = None ->
  (execute parse self query_text page page_size w').1 =
  (execute parse self query_text page page_size w).1.
Proof.
  intros Hobjects Hkey Hkey'.
  rewrite (execute_miss parse _ _ _ _ _ Hkey),
    (execute_miss parse _ _ _ _ _ Hkey'); cbv zeta.
  rewrite Hobjects.
  destruct (_prepare_db_query _ _ _ true) as [fq | e]; [| reflexivity].
  destruct (_prepare_db_query _ _ _ false) as [cq | e]; reflexivity.
Qed.

(** Every cached pair is the pair a call on an empty cache returns. *)
Lemma reachable_store_fresh w :
  reachable parse w ->
  forall ref query_text page page_size value,
    store w !! (ref, query_text, page, page_size) = Some value ->
    (execute parse {| config := ref |} query_text page page_size
       {| objects := objects w; store := ∅; trace := [] |}).1 =
      Return value.
Proof.
  induction 1 as [objs | w self text0 page0 size0 _ IH];
    intros ref query_text page page_size value; cbn [store objects].
  - rewrite lookup_empty; discriminate.
  - rewrite execute_objects.
    destruct (store w !! (config self, text0, page0, size0))
      as [cached |] eqn:Hkey.
    { rewrite (execute_hit parse _ _ _ _ _ _ Hkey); apply IH. }
    pose proof (execute_miss_outcome w
                  {| objects := objects w; store := ∅; trace := [] |}
                  self text0 page0 size0 eq_refl Hkey (lookup_empty _))
      as Hfresh.
    rewrite (execute_miss parse _ _ _ _ _ Hkey) in Hfresh |- *;
      cbv zeta in Hfresh |- *.
    destruct (_prepare_db_query _ _ _ true) as [fq | e]; [| apply IH].
    destruct (_prepare_db_query _ _ _ false) as [cq | e]; [| apply IH].
    cbn [store fst snd] in Hfresh |- *.
    destruct (decide ((config self, text0, page0, size0) =
                      (ref, query_text, page, page_size))) as [Heq | Hne].
    + rewrite Heq, lookup_insert_eq; intros [= <-].
      injection Heq as <- <- <- <-.
      destruct self as [c]; exact Hfresh.
    + rewrite lookup_insert_ne by exact Hne; apply IH.
Qed.

(** X20. Memoisation does not show in the results: in a world reached by
    calls to [execute], where configs and datasets stay as they are, a
    call ends as the same call on an empty cache would, be it served from
    the cache or not. *)
Theorem cache_is_transparent w self query_text page page_size :
  reachable parse w ->
  (execute parse self query_text page page_size w).1 =
  (execute parse self query_text page page_size
     {| objects := objects w; store := ∅; trace := [] |}).1.
Proof.
  intros Hreach.
  destruct (store w !! (config self, query_text, page, page_size))
    as [cached |] eqn:Hkey.
  - rewrite (execute_hit parse _ _ _ _ _ _ Hkey); cbn [fst].
    pose proof (reachable_store_fresh w Hreach _ _ _ _ _ Hkey) as Hfresh.
    destruct self as [c]; symmetry; exact Hfresh.
  - symmetry; apply execute_miss_outcome;
      [reflexivity | exact Hkey | apply lookup_empty].
Qed.

(** X21. In a world reached by calls to [execute], every cache entry was
    written by a call that validated: all tokens of its query text resolve
    against the config of its key, and, when the page size of its key is
    not negative, it holds no more entities than that page size. *)
Theorem cached_entries_validated w ref query_text page page_size count
        entities :
  reachable parse w ->
  store w !! (ref, query_text, page, page_size) = Some (count, entities) ->
  ~ unresolved (objects w ref) (parse query_text) /\
  (0 <= page_size -> (length entities <= Z.to_nat page_size)%nat).
Proof.
  intros Hreach Hkey.
  destruct (reachable_store_ok parse w Hreach _ _ _ _ _ _ Hkey)
    as [Hres Hlen].
  split; [exact Hres | intros _; exact Hlen].
Qed.
End CacheFacts.

(** ** The further theorems at the concrete instance *)

Import Fixtures.

Lemma anonymous_error_first_witness :
  anonymous_tokens messy_query <> [] /\
  anonymous_filter (posts_config small_dataset) = None /\
  _prepare_db_query (posts_config small_dataset)
    (session_query small_dataset) messy_query false =
    Raise (SearchError
             (Plain "Anonymous tokens are not valid in this context.")).
Proof.
  assert (Hne : anonymous_tokens messy_query <> []) by discriminate.
  split; [exact Hne |]; split; [reflexivity |].
  apply (anonymous_error_first (posts_config small_dataset) _ messy_query
           false Hne); reflexivity.
Defined.

Lemma named_error_first_witness :
  anonymous_ok (odd_config small_dataset) messy_query /\
  _prepare_db_query (odd_config small_dataset)
    (session_query small_dataset) messy_query true =
    Raise (SearchError
             (Format "Unknown named token: %r. Available named tokens: %r."
                "foo" (_format_dict_keys
                         (named_filters (odd_config small_dataset))))).
Proof.
  assert (Hanon : anonymous_ok (odd_config small_dataset) messy_query)
    by (right; eexists; reflexivity).
  split; [exact Hanon |].
  apply (named_error_first (odd_config small_dataset) _ messy_query true
           [NamedToken.Build "tag" "ab" false]
           (NamedToken.Build "foo" "bar" false)
           [NamedToken.Build "baz" "" true] Hanon);
    [reflexivity | | reflexivity].
  constructor; [eexists; reflexivity | constructor].
Defined.

Lemma special_error_first_witness :
  Forall (named_ok (odd_config small_dataset)) (named_tokens tidy_query) /\
  _prepare_db_query (odd_config small_dataset)
    (session_query small_dataset) tidy_query false =
    Raise (SearchError
             (Format
                "Unknown special token: %r. Available special tokens: %r."
                "fav" (_format_dict_keys
                         (special_filters (odd_config small_dataset))))).
Proof.
  assert (Hnamed : Forall (named_ok (odd_config small_dataset))
                          (named_tokens tidy_query))
    by (constructor; [eexists; reflexivity | constructor]).
  split; [exact Hnamed |].
  apply (special_error_first (odd_config small_dataset) _ tidy_query false
           [SpecialToken.Build "liked" false]
           (SpecialToken.Build "fav" false) []);
    [right; eexists; reflexivity | exact Hnamed | reflexivity | |
     reflexivity].
  constructor; [eexists; reflexivity | constructor].
Defined.

Lemma sorting_query_resolves :
  filters_resolve (odd_config small_dataset) sorting_query.
Proof.
  split; [right; eexists; reflexivity |].
  split; (constructor; [eexists; reflexivity | constructor]).
Defined.

Lemma rank_negated_not_ok :
  ~ sort_ok (odd_config small_dataset)
            (SortToken.Build "rank" SORT_NEGATED_DEFAULT).
Proof. intros H; vm_compute in H; exact H. Defined.

Lemma sort_error_first_witness :
  filters_resolve (odd_config small_dataset) sorting_query /\
  ~ sort_ok (odd_config small_dataset)
            (SortToken.Build "rank" SORT_NEGATED_DEFAULT) /\
  sort_tokens sorting_query =
    [SortToken.Build "rank" SORT_NEGATED_DEFAULT;
     SortToken.Build "nope" SORT_ASC] /\
  _prepare_db_query (odd_config small_dataset)
    (session_query small_dataset) sorting_query true =
    Raise AssertionError.
Proof.
  split; [exact sorting_query_resolves |].
  split; [exact rank_negated_not_ok |].
  split; [reflexivity |].
  exact (proj1 (sort_error_first (odd_config small_dataset)
                  (session_query small_dataset) sorting_query []
                  (SortToken.Build "rank" SORT_NEGATED_DEFAULT)
                  [SortToken.Build "nope" SORT_ASC]
                  sorting_query_resolves eq_refl (Forall_nil_2 _)
                  rank_negated_not_ok)).
Defined.

Lemma unresolvable_default_ignored_witness :
  _prepare_db_query (odd_config small_dataset)
    (session_query small_dataset) (rank_only SORT_DEFAULT) true =
  _prepare_db_query (odd_config small_dataset)
    (session_query small_dataset) (rank_only SORT_DEFAULT) false /\
  _prepare_db_query (odd_config small_dataset)
    (session_query small_dataset) (rank_only SORT_DEFAULT) true =
  Return (session_query small_dataset).
Proof.
  split; [| reflexivity].
  apply (unresolvable_default_ignored (odd_config small_dataset)).
  constructor; [| constructor].
  split; [reflexivity |].
  exists name_column, SORT_DEFAULT; split; [reflexivity |].
  intros [H | H]; discriminate.
Defined.

Lemma format_dict_keys_key_set_witness :
  _format_dict_keys (named_filters (posts_config small_dataset)) =
  _format_dict_keys (<["tag" := 1%nat]> {["user" := 2%nat]} : gmap string nat).
Proof.
  apply format_dict_keys_key_set; intros k.
  rewrite posts_config_named_keys; unfold is_Some.
  setoid_rewrite lookup_insert_Some.
  setoid_rewrite lookup_singleton_Some.
  split.
  - intros [-> | ->]; eexists; [left | right]; split; try split;
      try reflexivity; discriminate.
  - intros [n [[<- _] | [_ [<- _]]]]; auto.
Defined.

Lemma cached_result_survives_witness :
  let w := start small_dataset in
  let w1 := (execute parse executor "tag:ab special:liked" 1 100 w).2 in
  let value : Result := (Some (count_cell 2), [(2, 5); (2, 9)]) in
  execute parse executor "tag:ab special:liked" 1 100 w = (Return value, w1) /\
  (exists msg,
      (execute parse executor "tag:ab special:liked" 1 100
         (swap_objects (bare_config []) w)).1 = Raise (SearchError msg)) /\
  (execute parse executor "tag:ab special:liked" 1 100
     (swap_objects (bare_config []) w1)).1 = Return value.
Proof.
  cbv zeta.
  assert (Hexec :
            execute parse executor "tag:ab special:liked" 1 100
              (start small_dataset) =
            (Return (Some (count_cell 2), [(2, 5); (2, 9)]),
             (execute parse executor "tag:ab special:liked" 1 100
                (start small_dataset)).2)).
  { rewrite (surjective_pairing (execute _ _ _ _ _ _)) at 1.
    f_equal; vm_compute; reflexivity. }
  split; [exact Hexec |].
  split; [eexists; vm_compute; reflexivity |].
  unfold swap_objects.
  rewrite (cached_result_survives parse _ _ _ _ _ _ _
             (fun _ => bare_config []) Hexec); reflexivity.
Defined.

Lemma execute_assertion_error_witness :
  let w1 := (execute rank_parse executor "-sort:rank" 1 100
               (odd_start small_dataset)).2 in
  execute rank_parse executor "-sort:rank" 1 100 (odd_start small_dataset) =
    (Raise AssertionError, w1) /\
  store w1 = store (odd_start small_dataset) /\
  ~ well_formed (odd_config small_dataset).
Proof.
  cbv zeta.
  assert (Hexec :
            execute rank_parse executor "-sort:rank" 1 100
              (odd_start small_dataset) =
            (Raise AssertionError,
             (execute rank_parse executor "-sort:rank" 1 100
                (odd_start small_dataset)).2)).
  { rewrite (surjective_pairing (execute _ _ _ _ _ _)) at 1.
    f_equal; vm_compute; reflexivity. }
  destruct (execute_assertion_error rank_parse _ _ _ _ _ _ Hexec)
    as (_ & Hwf & Hstore & _).
  split; [exact Hexec |]; split; [exact Hstore | exact Hwf].
Defined.

Lemma execute_page_slice_witness :
  1 <= 3 /\ 0 <= 100 /\
  store (start dataset) !! (config executor, "", 3, 100) = None /\
  (execute parse executor "" 3 100 (start dataset)).1 =
    Return (Some (count_cell 150), []) /\
  [] = take (Z.to_nat 100)
            (drop (Z.to_nat ((3 - 1) * 100))
                  (matching_rows
                     (Query_options (lazyload "*") (session_query dataset)))).
Proof.
  assert (Hkey : store (start dataset) !! (config executor, "", 3, 100)
                 = None) by reflexivity.
  assert (Hexec : (execute parse executor "" 3 100 (start dataset)).1 =
                    Return (Some (count_cell 150), []))
    by (vm_compute; reflexivity).
  split; [lia |]; split; [lia |].
  split; [exact Hkey |]; split; [exact Hexec |].
  exact (proj1 (execute_page_slice parse (start dataset) executor "" 3 100
                  _ _ ltac:(lia) ltac:(lia) Hkey Hexec)).
Defined.

Lemma execute_consecutive_pages_witness :
  let w1 := (execute parse executor "" 1 100 (start dataset)).2 in
  (execute parse executor "" 1 100 (start dataset)).1 =
    Return (Some (count_cell 150), take 100 dataset) /\
  (execute parse executor "" (1 + 1) 100 w1).1 =
    Return (Some (count_cell 150), drop 100 dataset) /\
  take 100 dataset ++ drop 100 dataset = dataset.
Proof.
  cbv zeta.
  assert (Hexec1 : (execute parse executor "" 1 100 (start dataset)).1 =
                     Return (Some (count_cell 150), take 100 dataset))
    by (vm_compute; reflexivity).
  assert (Hexec2 :
            (execute parse executor "" (1 + 1) 100
               (execute parse executor "" 1 100 (start dataset)).2).1 =
            Return (Some (count_cell 150), drop 100 dataset))
    by (vm_compute; reflexivity).
  split; [exact Hexec1 |]; split; [exact Hexec2 |].
  rewrite (proj1 (execute_consecutive_pages parse (start dataset) executor
                    "" 1 100 _ _ _ _ ltac:(lia) ltac:(lia) eq_refl eq_refl
                    Hexec1 Hexec2)).
  vm_compute; reflexivity.
Defined.

Lemma execute_entities_match_witness :
  (execute parse executor "tag:ab special:liked" 1 100
     (start small_dataset)).1 =
    Return (Some (count_cell 2), [(2, 5); (2, 9)]) /\
  (2, 5) ∈ small_dataset /\
  matches [fun e : Post => xorb false (e.1 =? 2);
           fun e : Post => xorb false (0 <? e.1)] (2, 5) = true.
Proof.
  assert (Hexec : (execute parse executor "tag:ab special:liked" 1 100
                     (start small_dataset)).1 =
                  Return (Some (count_cell 2), [(2, 5); (2, 9)]))
    by (vm_compute; reflexivity).
  split; [exact Hexec |].
  exact (execute_entities_match parse (start small_dataset) executor
           "tag:ab special:liked" 1 100 _ _ (2, 5) eq_refl Hexec
           (list_elem_of_here _ _)).
Defined.

Lemma execute_count_matches_pages_witness :
  (execute parse executor "sort:name sort:date" 1 2
     (start small_dataset)).1 =
    Return (Some (count_cell 5), [(1, 8); (1, 3)]) /\
  (length [(1, 8); (1, 3)] <= 5)%nat.
Proof.
  assert (Hexec : (execute parse executor "sort:name sort:date" 1 2
                     (start small_dataset)).1 =
                  Return (Some (count_cell 5), [(1, 8); (1, 3)]))
    by (vm_compute; reflexivity).
  split; [exact Hexec |].
  destruct (execute_count_matches_pages parse (start small_dataset) executor
              "sort:name sort:date" 1 2 _ _ eq_refl Hexec eq_refl
              (fun q => eq_refl) eq_refl eq_refl) as (_ & _ & Hlen).
  exact Hlen.
Defined.

Lemma serialize_envelope_witness :
  let ctx := fixed_ctx "tag:ab special:liked" None None in
  let w1 := (execute parse executor "tag:ab special:liked" 1 100
               (start small_dataset)).2 in
  let env :=
    Envelope.Build "tag:ab special:liked" 1 100 (Some (count_cell 2))
                   ["early"; "early"]%string in
  reachable parse (start small_dataset) /\
  execute_and_serialize parse executor ctx serializer (start small_dataset) =
    (ApiReturn env, w1) /\
  (length (Envelope.results env) <= Z.to_nat (Envelope.pageSize env))%nat.
Proof.
  cbv zeta.
  assert (Hexec :
            execute_and_serialize parse executor
              (fixed_ctx "tag:ab special:liked" None None) serializer
              (start small_dataset) =
            (ApiReturn
               (Envelope.Build "tag:ab special:liked" 1 100
                  (Some (count_cell 2)) ["early"; "early"]%string),
             (execute parse executor "tag:ab special:liked" 1 100
                (start small_dataset)).2)).
  { rewrite (surjective_pairing (execute_and_serialize _ _ _ _ _)) at 1.
    f_equal; vm_compute; reflexivity. }
  split; [constructor |]; split; [exact Hexec |].
  destruct (serialize_envelope parse _ _ _ _ _ _
              (reachable_start parse _) Hexec)
    as (_ & _ & _ & entities & _ & _ & _ & _ & Hlen).
  exact Hlen.
Defined.

Lemma serialize_failure_witness :
  let w1 := (execute parse executor "tag:ab special:liked" 1 100
               (start small_dataset)).2 in
  (execute_and_serialize parse executor bad_page_ctx serializer
     (start small_dataset)).1 = ApiCtxRaise "page must be at least 1"%string /\
  (execute_and_serialize parse executor bad_page_ctx serializer
     (start small_dataset)).2 = start small_dataset /\
  store (execute_and_serialize parse executor
           (fixed_ctx "foo:bar" None None) serializer
           (start small_dataset)).2 = store (start small_dataset) /\
  execute_and_serialize parse executor
    (fixed_ctx "tag:ab special:liked" None None) picky_serializer
    (start small_dataset) = (ApiSerializerRaise "no date"%string, w1) /\
  execute_and_serialize parse executor
    (fixed_ctx "tag:ab special:liked" None None) picky_serializer w1 =
    (ApiSerializerRaise "no date"%string, w1).
Proof.
  cbv zeta.
  assert (Hbad :
            execute_and_serialize parse executor bad_page_ctx serializer
              (start small_dataset) =
            (ApiCtxRaise "page must be at least 1"%string,
             (execute_and_serialize parse executor bad_page_ctx serializer
                (start small_dataset)).2)).
  { rewrite (surjective_pairing (execute_and_serialize _ _ _ _ _)) at 1.
    f_equal. }
  assert (Hfoo :
            execute_and_serialize parse executor
              (fixed_ctx "foo:bar" None None) serializer
              (start small_dataset) =
            (ApiRaise
               (SearchError
                  (Format
                     "Unknown named token: %r. Available named tokens: %r."
                     "foo" ["tag"; "user"])),
             (execute_and_serialize parse executor
                (fixed_ctx "foo:bar" None None) serializer
                (start small_dataset)).2)).
  { rewrite (surjective_pairing (execute_and_serialize _ _ _ _ _)) at 1.
    f_equal; vm_compute; reflexivity. }
  assert (Hpicky :
            execute_and_serialize parse executor
              (fixed_ctx "tag:ab special:liked" None None) picky_serializer
              (start small_dataset) =
            (ApiSerializerRaise "no date"%string,
             (execute parse executor "tag:ab special:liked" 1 100
                (start small_dataset)).2)).
  { rewrite (surjective_pairing (execute_and_serialize _ _ _ _ _)) at 1.
    f_equal; vm_compute; reflexivity. }
  split; [reflexivity |].
  split; [exact (proj1 (serialize_failure parse _ _ _ _ _) _ Hbad) |].
  split;
    [exact (proj1 (proj1 (proj2 (serialize_failure parse _ _ _ _ _)) _ Hfoo))
    |].
  split; [exact Hpicky |].
  destruct (proj2 (proj2 (serialize_failure parse _ _ _ _ _)) _ Hpicky)
    as (query & page & page_size & count & entities & before & entity
        & after & _ & _ & _ & _ & _ & Hagain).
  exact Hagain.
Defined.

Lemma handlers_always_raise_witness :
  let handler :=
    App._on_integrity_error (Request := unit) (Response := unit)
                            (Params := unit) in
  (App.IntegrityError, handler) ∈ App.error_handlers (fun _ => ""%string) /\
  handler {| App.args := [] |} tt tt tt = App.raised_IndexError /\
  handler {| App.args := ["duplicate"%string] |} tt tt tt =
    App.raised (App.HTTPConflict "Integrity violation" "duplicate").
Proof.
  cbv zeta.
  assert (Hin : (App.IntegrityError,
                 App._on_integrity_error (Request := unit) (Response := unit)
                                         (Params := unit))
                ∈ App.error_handlers (fun _ => ""%string))
    by (right; left).
  split; [exact Hin |]; split; [| reflexivity].
  apply (proj1 (proj2 (handlers_always_raise (fun _ => ""%string) _ _
                         {| App.args := [] |} tt tt tt Hin))).
  split; reflexivity.
Defined.

Lemma handler_title_identifies_class_witness :
  let handlers := App.error_handlers (Request := unit) (Response := unit)
                                     (Params := unit) (fun _ => ""%string) in
  (App.SearchError, App._on_search_error (fun _ => ""%string)) ∈ handlers /\
  (App.ProcessingError, App._on_processing_error (fun _ => ""%string))
    ∈ handlers /\
  App.title (App.HTTPBadRequest "Search error" "") <>
  App.title (App.HTTPBadRequest "Processing error" "").
Proof.
  cbv zeta.
  assert (Hsearch :
            (App.SearchError, App._on_search_error (fun _ => ""%string))
            ∈ App.error_handlers (Request := unit) (Response := unit)
                (Params := unit) (fun _ => ""%string))
    by (do 3 right; left).
  assert (Hprocessing :
            (App.ProcessingError,
             App._on_processing_error (fun _ => ""%string))
            ∈ App.error_handlers (Request := unit) (Response := unit)
                (Params := unit) (fun _ => ""%string))
    by (do 5 right; left).
  split; [exact Hsearch |]; split; [exact Hprocessing |].
  intros Htitle.
  pose proof (handler_title_identifies_class (fun _ => ""%string) _ _ _ _
                {| App.args := [] |} {| App.args := [] |} tt tt tt _ _
                Hsearch Hprocessing eq_refl eq_refl Htitle) as Hcls.
  discriminate Hcls.
Defined.

Lemma cache_is_transparent_witness :
  let w1 := (execute parse executor "tag:ab special:liked" 1 100
               (start small_dataset)).2 in
  reachable parse w1 /\
  (execute parse executor "tag:ab special:liked" 1 100 w1).1 =
    Return (Some (count_cell 2), [(2, 5); (2, 9)]) /\
  (execute parse executor "tag:ab special:liked" 1 100 w1).1 =
  (execute parse executor "tag:ab special:liked" 1 100
     {| objects := objects w1; store := ∅; trace := [] |}).1.
Proof.
  cbv zeta.
  assert (Hreach :
            reachable parse
              (execute parse executor "tag:ab special:liked" 1 100
                 (start small_dataset)).2)
    by (constructor; constructor).
  split; [exact Hreach |]; split; [vm_compute; reflexivity |].
  apply (cache_is_transparent parse _ executor "tag:ab special:liked" 1 100
           Hreach).
Defined.

Lemma cached_entries_validated_witness :
  let w1 := (execute parse executor "tag:ab special:liked" 1 100
               (start small_dataset)).2 in
  reachable parse w1 /\
  store w1 !! (7, "tag:ab special:liked", 1, 100) =
    Some (Some (count_cell 2), [(2, 5); (2, 9)]) /\
  ~ unresolved (objects w1 7) (parse "tag:ab special:liked").
Proof.
  cbv zeta.
  assert (Hreach :
            reachable parse
              (execute parse executor "tag:ab special:liked" 1 100
                 (start small_dataset)).2)
    by (constructor; constructor).
  assert (Hkey :
            store (execute parse executor "tag:ab special:liked" 1 100
                     (start small_dataset)).2
              !! (7, "tag:ab special:liked", 1, 100) =
            Some (Some (count_cell 2), [(2, 5); (2, 9)]))
    by (vm_compute; reflexivity).
  split; [exact Hreach |]; split; [exact Hkey |].
  exact (proj1 (cached_entries_validated parse _ _ _ _ _ _ _ Hreach Hkey)).
Defined.
